(** * tig: the command layer of a small version-control tool

    The commands [init], [add], [rm], [commit], [branch], [checkout] and
    [diff] of [tig.js] are embedded as programs of a state-and-exception
    monad over the repository and the working copy on disk; [remote] is
    one over that state and the [remote] section of the config, which it
    alone reads and writes.  Each command is written statement by
    statement as in the source, with what the language does where the
    source reads an identifier that is not declared ([changestoRm],
    [Errror]) or calls a value that is no function ([nameToStatus]).

    The modules the commands call ([files], [config], [refs], [objects],
    [index], [diff], [merge], [util], [workingCopy]) and the commands
    [tig.write_tree], [tig.update_index] and [tig.update_ref] are not part
    of [tig.js].  They are modelled from the contracts the spec gives the
    components, and each such definition says so.  The source calls
    [read] and [exists] of the object store on [object] as well as on
    [objects]; the spec has one object store, and both names are that
    store here.  Commands run in the root of the working copy. *)

From Stdlib Require Import Ascii String.
From stdpp Require Import gmap strings list fin_maps.

Local Open Scope string_scope.

(** ** JavaScript values and text *)

(** "\n" and the double quote, which have no escape in a Rocq string. *)
Definition nl : string := String "010"%char EmptyString.
Definition dq : string := String "034"%char EmptyString.

(** A JavaScript value that is a string or [undefined]. *)
Abbreviation jsval := (option string).
Abbreviation undefined := (@None string).

(** [`${v}`]: how a template literal prints a string or [undefined]. *)
Definition js_string (v : jsval) : string := default "undefined" v.

(** [a === b] and [a !== b] on strings and [undefined]. *)
Definition js_eq (a b : jsval) : bool := bool_decide (a = b).
Definition js_neq (a b : jsval) : bool := negb (js_eq a b).

(** [xs.join(sep)]. *)
Definition join (sep : string) (xs : list string) : string := String.concat sep xs.

(** [s.startsWith(p)] and the rest of [s] after [p]. *)
Definition starts_with (p s : string) : bool := String.prefix p s.

Definition after (p s : string) : string :=
  String.substring (String.length p) (String.length s - String.length p) s.

(** A line of text without its final newline, if it has one. *)
Fixpoint chomp (s : string) : string :=
  match s with
  | EmptyString => EmptyString
  | String c EmptyString => if bool_decide (c = "010"%char) then EmptyString else s
  | String c rest => String c (chomp rest)
  end.

(** [p.split("/")]. *)
Fixpoint split_path_aux (s : string) (cur : string) : list string :=
  match s with
  | EmptyString => [cur]
  | String c rest =>
      if bool_decide (c = "/"%char) then cur :: split_path_aux rest EmptyString
      else split_path_aux rest (cur +:+ String c EmptyString)
  end.

Definition split_path (p : string) : list string := split_path_aux p EmptyString.

(** ** Errors *)

(** What a command can throw.  [Error] is [throw new Error(message)] of
    [tig.js]; [ReferenceError] and [TypeError] are the language's own, for an
    identifier that is not declared and for a call of something that is no
    function or a property read on [undefined]; [RangeError] is the
    language's stack overflow; [ENOENT] is [fs.unlinkSync] on a file that
    does not exist.  The last three are the collaborators' failures. *)
Inductive exn : Type :=
  | Error (message : string)
  | ReferenceError (message : string)
  | TypeError (message : string)
  | RangeError
  | ENOENT (file : string)
  | NotARepository
  | BareRepositoryViolation
  | ObjectNotFound.

Inductive result (A : Type) : Type :=
  | Ok (a : A)
  | Throw (e : exn).
Arguments Ok {A} a.
Arguments Throw {A} e.

#[global] Instance result_ret : MRet result := λ A a, Ok a.
#[global] Instance result_bind : MBind result := λ A B f m,
  match m with Ok a => f a | Throw e => Throw e end.
#[global] Instance result_fmap : FMap result := λ A B f m,
  match m with Ok a => Ok (f a) | Throw e => Throw e end.

(** ** The data model *)

Abbreviation hash := string (only parsing).
Abbreviation path := string (only parsing).

Inductive kind : Type := kblob | ktree | kcommit.

#[global] Instance kind_eq_dec : EqDecision kind.
Proof. solve_decision. Defined.

(** An object of the store: a blob, one directory level of a tree, or a
    commit.  The message of a commit is whatever [commit] passed to
    [objects.writeCommit], a string or [undefined]. *)
Inductive object : Type :=
  | Blob (content : string)
  | Tree (entries : list (string * (kind * hash)))
  | Commit (tree : hash) (parents : list hash) (message : jsval).

(** The content digest that names an object. *)
Class Digest : Type := digest : object → hash.

Record entry : Type := Entry {
  e_path : path;
  e_stage : nat;
  e_hash : hash
}.

(** The [config] file: [core.bare]. *)
Record Config : Type := mkConfig {
  core_bare : bool
}.

(** The repository directory ([.tig], or the top level of a bare
    repository): [r_files] holds the text files by their name in the
    directory ([HEAD], [MERGE_HEAD], [MERGE_MSG], [refs/heads/<branch>]). *)
Record Repo : Type := mkRepo {
  r_config : Config;
  r_files : gmap string string;
  r_objects : gmap string object;
  r_index : list entry
}.

(** What is on disk: the repository the current directory is in, if it is in
    one, and the files of the working copy by their path from its root.
    Commands run in the root of the working copy. *)
Record State : Type := mkState {
  repo : option Repo;
  workingCopy : gmap string string
}.

(** ** The monad of commands *)

(** A command changes what is on disk and returns or throws; what it wrote
    before it threw stays written. *)
Definition M (A : Type) : Type := State → State * result A.

#[global] Instance M_ret : MRet M := λ A a s, (s, Ok a).
#[global] Instance M_bind : MBind M := λ A B f m s,
  match m s with
  | (s', Ok a) => f a s'
  | (s', Throw e) => (s', Throw e)
  end.

Definition throw {A : Type} (e : exn) : M A := λ s, (s, Throw e).

(** A collaborator that reads the repository, one that reads it and can
    fail, one that writes it, and one that writes it and returns a value.
    Outside a repository they fail with [NotARepository]. *)
Definition rd {A : Type} (f : Repo → A) : M A := λ s,
  match repo s with
  | Some r => (s, Ok (f r))
  | None => (s, Throw NotARepository)
  end.

Definition rdE {A : Type} (f : Repo → result A) : M A := λ s,
  match repo s with
  | Some r => (s, f r)
  | None => (s, Throw NotARepository)
  end.

Definition wr (f : Repo → Repo) : M unit := λ s,
  match repo s with
  | Some r => (mkState (Some (f r)) (workingCopy s), Ok tt)
  | None => (s, Throw NotARepository)
  end.

Definition wrR {A : Type} (f : Repo → Repo * A) : M A := λ s,
  match repo s with
  | Some r => (mkState (Some (f r).1) (workingCopy s), Ok (f r).2)
  | None => (s, Throw NotARepository)
  end.

(** The same for a collaborator that also reads the working copy. *)
Definition rdw {A : Type} (f : Repo → gmap string string → A) : M A := λ s,
  match repo s with
  | Some r => (s, Ok (f r (workingCopy s)))
  | None => (s, Throw NotARepository)
  end.

Definition rdwE {A : Type} (f : Repo → gmap string string → result A) : M A := λ s,
  match repo s with
  | Some r => (s, f r (workingCopy s))
  | None => (s, Throw NotARepository)
  end.

(** [xs.map(f)] for an [f] that has effects, and [xs.forEach(f)]. *)
Fixpoint mapM {A B : Type} (f : A → M B) (xs : list A) : M (list B) :=
  match xs with
  | [] => mret []
  | x :: xs' => y ← f x; ys ← mapM f xs'; mret (y :: ys)
  end.

Definition forEach {A : Type} (f : A → M unit) (xs : list A) : M unit :=
  mapM f xs ;; mret tt.

Definition with_files (f : gmap string string → gmap string string) (r : Repo) : Repo :=
  mkRepo (r_config r) (f (r_files r)) (r_objects r) (r_index r).

Definition with_objects (f : gmap string object → gmap string object) (r : Repo) : Repo :=
  mkRepo (r_config r) (r_files r) (f (r_objects r)) (r_index r).

Definition with_index (f : list entry → list entry) (r : Repo) : Repo :=
  mkRepo (r_config r) (r_files r) (r_objects r) (f (r_index r)).

Definition with_workingCopy (f : gmap string string → gmap string string) : M unit := λ s,
  (mkState (repo s) (f (workingCopy s)), Ok tt).

(** The keys of a mapping, as [Object.keys] lists them. *)
Definition keys {A : Type} (m : gmap string A) : list string := (map_to_list m).*1.

(** ** The collaborators *)

Module files.

(** A file name as the commands build it: [files.tigPath(name)] is the
    file [name] of the repository directory, [files.workingCopyPath(p)]
    the file [p] of the working copy. *)
Inductive fspath : Type :=
  | tigPath (name : string)
  | workingCopyPath (p : path).

(** Modelled from the spec: [files.inRepo], whether the current directory
    is inside a repository. *)
Definition inRepo : M bool := λ s, (s, Ok (bool_decide (is_Some (repo s)))).

(** Modelled from the spec: [files.assertInRepo] fails with
    [NotARepository] outside an initialized repository. *)
Definition assertInRepo : M unit := λ s,
  match repo s with
  | Some _ => (s, Ok tt)
  | None => (s, Throw NotARepository)
  end.

(** Modelled from the spec: [files.read], the text of a file, [undefined]
    when there is no such file. *)
Definition read (f : fspath) : M jsval := λ s,
  match f with
  | tigPath name =>
      match repo s with
      | Some r => (s, Ok (r_files r !! name))
      | None => (s, Throw NotARepository)
      end
  | workingCopyPath p => (s, Ok (workingCopy s !! p))
  end.

(** Modelled from the spec: [files.pathFromRepoRoot]; commands run in the
    root, where a path is already relative to it. *)
Definition pathFromRepoRoot (p : path) : string := p.

(** Modelled from the spec: [files.writeFilesFromTree] writes the
    directory structure it is given; for the structure [init] writes, the
    repository directory with its [HEAD] and [config] files, an empty
    [objects] directory and an empty [refs/heads] directory. *)
Definition writeFilesFromTree (tigStructure : Repo) : M unit := λ s,
  (mkState (Some tigStructure) (workingCopy s), Ok tt).

(** Modelled from the spec: [files.lsRecursive], the files of the working
    copy that are the path or lie under it. *)
Definition lsRecursive (p : path) : M (list string) := λ s,
  (s, Ok (filter (λ q, q = p ∨ starts_with (p +:+ "/") q = true) (keys (workingCopy s)))).

End files.

Module fs.

(** [fs.statSync(p).isDirectory()]: whether some file of the working copy
    lies under the directory [p]. *)
Definition isDirectory (p : path) : M bool := λ s,
  (s, Ok (bool_decide (Exists (λ q, starts_with (p +:+ "/") q = true) (keys (workingCopy s))))).

(** [fs.existsSync]. *)
Definition existsSync (f : files.fspath) : M bool := λ s,
  match f with
  | files.tigPath name =>
      (s, Ok (bool_decide (is_Some (repo s ≫= λ r, r_files r !! name))))
  | files.workingCopyPath p =>
      (s, Ok (bool_decide (is_Some (workingCopy s !! p)
               ∨ Exists (λ q, starts_with (p +:+ "/") q = true) (keys (workingCopy s)))))
  end.

(** [fs.unlinkSync]: deletes the file, and throws when there is none. *)
Definition unlinkSync (f : files.fspath) : M unit := λ s,
  match f with
  | files.tigPath name =>
      match repo s with
      | Some r =>
          match r_files r !! name with
          | Some _ => (mkState (Some (with_files (delete name) r)) (workingCopy s), Ok tt)
          | None => (s, Throw (ENOENT name))
          end
      | None => (s, Throw (ENOENT name))
      end
  | files.workingCopyPath p =>
      match workingCopy s !! p with
      | Some _ => (mkState (repo s) (delete p (workingCopy s)), Ok tt)
      | None => (s, Throw (ENOENT p))
      end
  end.

End fs.

Module config.

(** Modelled from the spec: [config.objectToStr] of the object that has
    [bare: b] in its [core] section, the text of the [config] file. *)
Definition objectToStr (bare : bool) : Config := mkConfig bare.

(** Modelled from the spec: [config.assertNotBare] fails with
    [BareRepositoryViolation] in a bare repository. *)
Definition assertNotBare : M unit := λ s,
  match repo s with
  | Some r => if core_bare (r_config r) then (s, Throw BareRepositoryViolation) else (s, Ok tt)
  | None => (s, Throw NotARepository)
  end.

End config.

(** The object store, which the source calls [objects] and, in places,
    [object]. *)
Module objects.
Section with_digest.
Context `{!Digest}.

(** Modelled from the spec: [objects.write] computes the digest of the
    object, stores the object under it if none is stored there yet, and
    returns the digest. *)
Definition write (o : object) (r : Repo) : Repo * hash :=
  let h := digest o in
  (match r_objects r !! h with
   | Some _ => r
   | None => with_objects (insert h o) r
   end, h).

(** Modelled from the spec: [objects.read] fails with [ObjectNotFound] if
    no object with that digest exists. *)
Definition read (h : jsval) (r : Repo) : result object :=
  match h ≫= λ h, r_objects r !! h with
  | Some o => Ok o
  | None => Throw ObjectNotFound
  end.

(** Modelled from the spec: [objects.exists]. *)
Definition exists_ (h : jsval) (r : Repo) : bool :=
  bool_decide (is_Some (h ≫= λ h, r_objects r !! h)).

(** Modelled from the spec: [objects.type]. *)
Definition type (o : object) : kind :=
  match o with
  | Blob _ => kblob
  | Tree _ => ktree
  | Commit _ _ _ => kcommit
  end.

(** Modelled from the spec: [objects.treeHash], the tree hash of a commit
    object; [undefined] for an object that is no commit. *)
Definition treeHash (o : object) : jsval :=
  match o with
  | Commit t _ _ => Some t
  | _ => undefined
  end.

(** Modelled from the spec: [objects.writeCommit] stores a commit object
    and updates no ref. *)
Definition writeCommit (treeHash : hash) (message : jsval) (parentHashes : list hash)
    (r : Repo) : Repo * hash :=
  write (Commit treeHash parentHashes message) r.

(** The nested directory structure of a flattened path-to-hash mapping. *)
#[local] Unset Elimination Schemes.
Inductive nested : Type :=
  | Leaf (h : hash)
  | Node (children : list (string * nested)).
#[local] Set Elimination Schemes.

(** Induction on a nested structure, with the property of every child of a
    node at hand. *)
Definition nested_ind (P : nested → Prop)
    (HLeaf : ∀ h, P (Leaf h))
    (HNode : ∀ cs, Forall (λ nc : string * nested, P nc.2) cs → P (Node cs))
    : ∀ t, P t :=
  fix F (t : nested) : P t :=
    match t with
    | Leaf h => HLeaf h
    | Node cs =>
        HNode cs
          ((fix G (cs : list (string * nested)) : Forall (λ nc : string * nested, P nc.2) cs :=
              match cs with
              | [] => Forall_nil_2 _
              | nc :: cs' => Forall_cons_2 _ _ _ (F nc.2) (G cs')
              end) cs)
    end.

Fixpoint assoc_set (name : string) (t : nested) (l : list (string * nested))
    : list (string * nested) :=
  match l with
  | [] => [(name, t)]
  | (n, t') :: l' =>
      if bool_decide (n = name) then (name, t) :: l' else (n, t') :: assoc_set name t l'
  end.

Fixpoint assoc_children (name : string) (l : list (string * nested))
    : list (string * nested) :=
  match l with
  | [] => []
  | (n, t) :: l' =>
      if bool_decide (n = name) then match t with Node cs => cs | Leaf _ => [] end
      else assoc_children name l'
  end.

Fixpoint nest_insert (segments : list string) (h : hash) (l : list (string * nested))
    : list (string * nested) :=
  match segments with
  | [] => l
  | [name] => assoc_set name (Leaf h) l
  | name :: rest => assoc_set name (Node (nest_insert rest h (assoc_children name l))) l
  end.

Definition nestFlatTree (toc : gmap string string) : list (string * nested) :=
  foldr (λ ph l, nest_insert (split_path ph.1) ph.2 l) [] (map_to_list toc).

Fixpoint writeNode (t : nested) (r : Repo) : Repo * (kind * hash) :=
  match t with
  | Leaf h => (r, (kblob, h))
  | Node cs =>
      let level :=
        (fix go (cs : list (string * nested)) (r : Repo)
             : Repo * list (string * (kind * hash)) :=
           match cs with
           | [] => (r, [])
           | (n, c) :: cs' =>
               let r1 := writeNode c r in
               let r2 := go cs' r1.1 in
               (r2.1, (n, r1.2) :: r2.2)
           end) cs r in
      let w := write (Tree level.2) level.1 in
      (w.1, (ktree, w.2))
  end.

(** Modelled from the spec: [objects.writeTree] rebuilds the nested
    directory structure of a flattened mapping and writes one tree object
    per directory level, bottom-up, returning the hash of the root. *)
Definition writeTree (toc : gmap string string) (r : Repo) : Repo * hash :=
  let w := writeNode (Node (nestFlatTree toc)) r in
  (w.1, w.2.2).

Fixpoint entriesToc (walk : hash → string → result (list (path * hash))) (pre : string)
    (es : list (string * (kind * hash))) : result (list (path * hash)) :=
  match es with
  | [] => Ok []
  | e :: es' =>
      here ← (if bool_decide (e.2.1 = ktree)
              then walk e.2.2 (pre +:+ e.1 +:+ "/")
              else Ok [(pre +:+ e.1, e.2.2)]);
      rest ← entriesToc walk pre es';
      Ok (here ++ rest)%list
  end.

Fixpoint treeToc (fuel : nat) (r : Repo) (h : hash) (pre : string)
    : result (list (path * hash)) :=
  match fuel with
  | 0 => Throw RangeError
  | S fuel' =>
      o ← read (Some h) r;
      match o with
      | Tree es => entriesToc (treeToc fuel' r) pre es
      | _ => Throw ObjectNotFound
      end
  end.

(** Modelled from the spec: [objects.commitToc] resolves a commit to its
    flattened path-to-blob-hash view by walking its tree recursively.  A
    walk deeper than the store has objects is a walk round a cycle, which
    overflows the stack. *)
Definition commitToc (h : jsval) (r : Repo) : result (gmap string string) :=
  o ← read h r;
  match o with
  | Commit t _ _ =>
      l ← treeToc (S (size (r_objects r))) r t EmptyString;
      Ok (list_to_map l)
  | _ => Throw ObjectNotFound
  end.

End with_digest.
End objects.

Module refs.

(** Modelled from the spec: [refs.toLocalRef]. *)
Definition toLocalRef (name : string) : string := "refs/heads/" +:+ name.

(** The ref a symbolic [HEAD] names: the text after [ref: ] in the [HEAD]
    file. *)
Definition symbolicTarget (r : Repo) : jsval :=
  r_files r !! "HEAD" ≫= λ c,
    if starts_with "ref: " c then Some (after "ref: " (chomp c)) else None.

(** Modelled from the spec: [refs.isHeadDetached], whether [HEAD] points
    directly at a commit hash rather than through a branch name. *)
Definition isHeadDetached (r : Repo) : bool := bool_decide (symbolicTarget r = None).

(** Modelled from the spec: [refs.headBranchName], defined only when
    [HEAD] is symbolic and names a local branch. *)
Definition headBranchName (r : Repo) : jsval :=
  symbolicTarget r ≫= λ t,
    if starts_with "refs/heads/" t then Some (after "refs/heads/" t) else None.

Definition isRef (name : string) : bool :=
  bool_decide (name = "HEAD") || bool_decide (name = "MERGE_HEAD")
  || starts_with "refs/heads/" name.

(** The ref file a name stands for: for [HEAD] the branch it is attached
    to, for a branch name its local ref. *)
Definition terminalRef (name : string) (r : Repo) : string :=
  if bool_decide (name = "HEAD") then default "HEAD" (symbolicTarget r)
  else if isRef name then name
  else toLocalRef name.

(** Modelled from the spec: [refs.hash] resolves a symbolic or direct
    name; an input that is the hash of a stored object is returned as it
    is; [HEAD] resolves through the symbolic chain; what does not resolve
    yields [undefined]. *)
Definition hash (refOrHash : jsval) (r : Repo) : jsval :=
  refOrHash ≫= λ n,
    if objects.exists_ (Some n) r then Some n else r_files r !! terminalRef n r.

(** Modelled from the spec: [refs.exists], [refs.rm] and [refs.write]. *)
Definition exists_ (name : string) (r : Repo) : bool :=
  bool_decide (is_Some (r_files r !! name)).

Definition rm (name : string) (r : Repo) : Repo := with_files (delete name) r.

Definition write (name : string) (value : string) (r : Repo) : Repo :=
  with_files (insert name value) r.

(** Modelled from the spec: [refs.localHeads], the mapping from branch
    name to hash. *)
Definition localHeads (r : Repo) : gmap string string :=
  list_to_map
    (omap (λ nv : string * string,
             if starts_with "refs/heads/" nv.1
             then Some (after "refs/heads/" nv.1, nv.2) else None)
          (map_to_list (r_files r))).

(** Modelled from the spec: [refs.commitParentHashes] has no entry if
    [HEAD] is unresolved, one entry normally, and the two entries
    [[HEAD, MERGE_HEAD]] when a merge is pending. *)
Definition commitParentHashes (r : Repo) : list string :=
  match hash (Some "HEAD") r with
  | None => []
  | Some h =>
      if exists_ "MERGE_HEAD" r
      then h :: option_list (hash (Some "MERGE_HEAD") r)
      else [h]
  end.

End refs.

Module merge.

(** Modelled from the spec: [merge.isMergeInProgress]; [MERGE_HEAD] is
    present only during a pending merge. *)
Definition isMergeInProgress (r : Repo) : bool := refs.exists_ "MERGE_HEAD" r.

End merge.

Module util.

(** [util.intersection]: the elements of [a] that are in [b]. *)
Definition intersection (a b : list string) : list string :=
  filter (λ x, x ∈ b) a.

(** Modelled from the spec: [util.setIn(config, ['remote', name, key, value])]
    on the [remote] section of a config, the key/value configuration of the
    repository: sets the key of the remote, making the section and the
    remote where they are missing. *)
Definition setIn (section : option (gmap string (gmap string string)))
    (name key value : string) : gmap string (gmap string string) :=
  let remotes := default ∅ section in
  <[name := <[key := value]> (default ∅ (remotes !! name))]> remotes.

End util.

Module index.
Section with_digest.
Context `{!Digest}.

(** Modelled from the spec: [index.read] and [index.write]. *)
Definition read (r : Repo) : list entry := r_index r.

Definition write (entries : list entry) (r : Repo) : Repo := with_index (λ _, entries) r.

(** The index flattened to a mapping from path to staged hash. *)
Definition toc (r : Repo) : gmap string string :=
  foldl (λ m e, <[e_path e := e_hash e]> m) ∅ (r_index r).

(** The working copy as a mapping from path to the hash its content has. *)
Definition workingCopyToc (w : gmap string string) : gmap string string :=
  (λ content, digest (Blob content)) <$> w.

(** Modelled from the spec: [index.matchingFiles], all staged paths equal
    to or nested under the path. *)
Definition matchingFiles (p : path) (r : Repo) : list string :=
  filter (λ q, q = p ∨ starts_with (p +:+ "/") q = true)
         (remove_dups (e_path <$> r_index r)).

(** Modelled from the spec: [index.conflictedPaths], the paths with any
    stage other than 0. *)
Definition conflictedPaths (r : Repo) : list string :=
  remove_dups (e_path <$> filter (λ e, e_stage e ≠ 0) (r_index r)).

(** Modelled from the spec: [index.tocToIndex] converts a flattened
    mapping into stage-0 entries. *)
Definition tocToIndex (toc : gmap string string) : list entry :=
  (λ ph : string * string, Entry ph.1 0 ph.2) <$> map_to_list toc.

End with_digest.
End index.

Module diff.
Section with_digest.
Context `{!Digest}.

Inductive status : Type := added | modified | deleted | unchanged.

(** One path of a diff: its status, and its hash on either side. *)
Record change : Type := Change {
  c_status : status;
  c_base : jsval;
  c_target : jsval
}.

(** A path only in [b] is added, only in [a] deleted, in both with
    different hashes modified, else unchanged. *)
Definition tocDiff (a b : gmap string string) : gmap string change :=
  merge (λ x y,
    match x, y with
    | None, None => None
    | None, Some hb => Some (Change added None (Some hb))
    | Some ha, None => Some (Change deleted (Some ha) None)
    | Some ha, Some hb =>
        Some (Change (if bool_decide (ha = hb) then unchanged else modified)
                     (Some ha) (Some hb))
    end) a b.

(** Modelled from the spec: [diff.diff] resolves each side to a
    table of contents, a hash through [objects.commitToc], a side left
    [undefined] as the live state (the index for the first side, the
    working copy for the second), and compares the blob hashes path by
    path. *)
Definition diff (hashA hashB : jsval) (r : Repo) (w : gmap string string)
    : result (gmap string change) :=
  a ← match hashA with
      | None => Ok (index.toc r)
      | Some _ => objects.commitToc hashA r
      end;
  b ← match hashB with
      | None => Ok (index.workingCopyToc w)
      | Some _ => objects.commitToc hashB r
      end;
  Ok (tocDiff a b).

(** Modelled from the spec: [diff.nameStatus], the single-letter status
    of each path that changed. *)
Definition nameStatus (d : gmap string change) : gmap string string :=
  omap (λ c,
    match c_status c with
    | added => Some "A"
    | modified => Some "M"
    | deleted => Some "D"
    | unchanged => None
    end) d.

(** Modelled from the spec: [diff.addedOrModifiedFiles], the paths where
    the working copy differs from the index by an added or a modified
    file. *)
Definition addedOrModifiedFiles (r : Repo) (w : gmap string string) : list string :=
  keys (filter (λ pc : string * string, pc.2 ≠ "D")
               (nameStatus (tocDiff (index.toc r) (index.workingCopyToc w)))).

(** Modelled from the spec: [diff.changedFilesCommitWouldOverwrite], the
    paths where the working copy differs from the index and the index
    entry would be overwritten by checking out the target. *)
Definition changedFilesCommitWouldOverwrite (targetHash : jsval) (r : Repo)
    (w : gmap string string) : result (list string) :=
  target ← objects.commitToc targetHash r;
  let localChanges := nameStatus (tocDiff (index.toc r) (index.workingCopyToc w)) in
  let overwritten := nameStatus (tocDiff (index.toc r) target) in
  Ok (filter (λ p, is_Some (overwritten !! p)) (keys localChanges)).

End with_digest.
End diff.

Module workingCopy.

Definition write_path (pc : string * diff.change) : M unit :=
  match diff.c_status pc.2 with
  | diff.added | diff.modified =>
      o ← rdE (objects.read (diff.c_target pc.2));
      match o with
      | Blob content => with_workingCopy (insert pc.1 content)
      | _ => throw ObjectNotFound
      end
  | diff.deleted => with_workingCopy (delete pc.1)
  | diff.unchanged => mret tt
  end.

(** Modelled from the spec: [workingCopy.write] applies a diff to the
    working copy: it writes the added and the modified paths and deletes
    the removed ones. *)
Definition write (d : gmap string diff.change) : M unit :=
  forEach write_path (map_to_list d).

End workingCopy.

(** ** The [remote] section of the config *)

(** Beside [core], the [config] file can have a section [remote], which
    [remote] alone reads and writes: for each remote name its keys, [url]
    among them.  It is kept beside the state of the other commands;
    [None] is a config without the section. *)
Record Disk : Type := mkDisk {
  d_state : State;
  d_remote : option (gmap string (gmap string string))
}.

Definition MD (A : Type) : Type := Disk → Disk * result A.

#[global] Instance MD_ret : MRet MD := λ A a d, (d, Ok a).
#[global] Instance MD_bind : MBind MD := λ A B f m d,
  match m d with
  | (d', Ok a) => f a d'
  | (d', Throw e) => (d', Throw e)
  end.

Definition throwD {A : Type} (e : exn) : MD A := λ d, (d, Throw e).

(** A command of the other state, run on the disk. *)
Definition liftD {A : Type} (m : M A) : MD A := λ d,
  (mkDisk (m (d_state d)).1 (d_remote d), (m (d_state d)).2).

Module config_remote.

(** Modelled from the spec: [config.read()['remote']], the [remote] section
    of the config of the repository, [undefined] when it has none. *)
Definition read : MD (option (gmap string (gmap string string))) := λ d,
  match repo (d_state d) with
  | Some _ => (d, Ok (d_remote d))
  | None => (d, Throw NotARepository)
  end.

(** Modelled from the spec: [config.write] of a config with the given
    [remote] section. *)
Definition write (section : gmap string (gmap string string)) : MD unit := λ d,
  match repo (d_state d) with
  | Some _ => (mkDisk (d_state d) (Some section), Ok tt)
  | None => (d, Throw NotARepository)
  end.

End config_remote.

(** The properties every object inherits from [Object.prototype]. *)
Definition inherited : list string :=
  ["constructor"; "hasOwnProperty"; "isPrototypeOf"; "propertyIsEnumerable";
   "toLocaleString"; "toString"; "valueOf"; "__proto__";
   "__defineGetter__"; "__defineSetter__"; "__lookupGetter__"; "__lookupSetter__"].

(** [name in section]: whether the section has the property, its own or
    inherited; it throws where the section is [undefined]. *)
Definition js_in (name : string) (section : option (gmap string (gmap string string)))
    : MD bool :=
  match section with
  | Some remotes => mret (bool_decide (is_Some (remotes !! name) ∨ name ∈ inherited))
  | None =>
      throwD (TypeError ("Cannot use 'in' operator to search for '" +:+ name
                         +:+ "' in undefined"))
  end.

(** ** The commands of [tig.js] *)

(** Reading a property of [undefined] and using an identifier that is not
    declared throw; so does calling something that is no function. *)
Definition property {A : Type} (name : string) (o : option A) : M A :=
  match o with
  | Some a => mret a
  | None => throw (TypeError ("Cannot read properties of undefined (reading '" +:+ name +:+ "')"))
  end.

Definition undeclared {A : Type} (identifier : string) : M A :=
  throw (ReferenceError (identifier +:+ " is not defined")).

Definition not_a_function {A : Type} (name : string) : M A :=
  throw (TypeError (name +:+ " is not a function")).

(** [xs.filter(p)] for a [p] that reads the disk. *)
Fixpoint filterM {A : Type} (p : A → M bool) (xs : list A) : M (list A) :=
  match xs with
  | [] => mret []
  | x :: xs' => b ← p x; ys ← filterM p xs'; mret (if b : bool then x :: ys else ys)
  end.

Module tig.

Record init_opts : Type := InitOpts { opts_bare : bool }.
Record rm_opts : Type := RmOpts { opts_f : bool; opts_r : bool }.
Record commit_opts : Type := CommitOpts { opts_m : jsval }.
Record update_index_opts : Type := UpdateIndexOpts { opts_add : bool; opts_remove : bool }.

Section with_digest.
Context `{!Digest}.

(** The text of the function [refs.headBranchName], which [branch] prints
    where it means to print the branch name. *)
Variable headBranchName_source : string.

(** Modelled from the spec: [tig.write_tree] writes the tree objects that
    represent the current state of the index and returns the hash of the
    root. *)
Definition write_tree : M hash :=
  wrR (λ r, objects.writeTree (index.toc r) r).

(** Modelled from the spec: [tig.update_ref] points a ref at a commit;
    for [HEAD] attached to a branch it is the branch that moves. *)
Definition update_ref (refToUpdate : string) (refToUpdateTo : hash) : M unit :=
  wr (λ r, refs.write (refs.terminalRef refToUpdate r) refToUpdateTo r).

(** Modelled from the spec: [tig.update_index] with [add] stages the
    working-copy content of the path, written as a blob first, at stage 0
    and clears the conflict stages of the path; with [remove] it deletes
    all entries of the path. *)
Definition update_index (p : path) (opts : update_index_opts) : M unit :=
  if opts_remove opts then
    wr (with_index (filter (λ e, e_path e ≠ p)))
  else if opts_add opts then
    content ← files.read (files.workingCopyPath p);
    match content with
    | Some content =>
        h ← wrR (objects.write (Blob content));
        wr (with_index (λ es, filter (λ e, e_path e ≠ p) es ++ [Entry p 0 h])%list)
    | None => throw (ENOENT p)
    end
  else mret tt.

(** [tig.init]: initialises the current directory as a new repo.  The
    structure is written under [.tig], or at the top level for a bare
    repo; either way it is the repository directory of the state. *)
Definition init (opts : option init_opts) : M unit :=
  inRepo ← files.inRepo;
  if inRepo : bool then mret tt else
  let opts := default (InitOpts false) opts in
  let tigStructure :=
    {| r_files := {[ "HEAD" := "ref: refs/headers/master" +:+ nl ]};
       r_config := config.objectToStr (opts_bare opts);
       r_objects := ∅;
       r_index := [] |} in
  files.writeFilesFromTree tigStructure.

(** [tig.rm]: removes files that match [path] from the index.  With [-f]
    it throws.  The test for changed files reads [changestoRm], which is
    not the [changesToRm] declared the line before and is declared
    nowhere. *)
Definition rm (path : string) (opts : option rm_opts) : M unit :=
  files.assertInRepo;;
  config.assertNotBare;;
  filesToRm ← rd (index.matchingFiles path);
  opts ← property "f" opts;
  if opts_f opts then throw (Error "You cannot remove a file with changes") else
  if bool_decide (length filesToRm = 0) then
    throw (Error (files.pathFromRepoRoot path +:+ " did not match any files."))
  else
  there ← fs.existsSync (files.workingCopyPath path);
  isDirectory ← (if there : bool then fs.isDirectory path else mret false);
  if isDirectory && negb (opts_r opts) then
    throw (Error ("You need to add run this operation recursively. Please pass "
                  +:+ dq +:+ "-r" +:+ dq +:+ " as an option. "))
  else
  changed ← rdw diff.addedOrModifiedFiles;
  let changesToRm := util.intersection changed filesToRm in
  changestoRm ← undeclared (A := list string) "changestoRm";
  if bool_decide (0 < length changestoRm) then
    throw (Error ("These files have changes:" +:+ nl +:+ " " +:+ join nl changesToRm +:+ nl))
  else
  onDisk ← filterM fs.existsSync (files.workingCopyPath <$> filesToRm);
  forEach fs.unlinkSync onDisk;;
  forEach (λ path, update_index path (UpdateIndexOpts false true)) filesToRm.

(** [tig.commit]: creates a commit object that represents the current
    state of the index, writes it to the [objects] directory and points
    [HEAD] at it.  The hash of [HEAD] is compared with the text
    "undefined" before the tree of the [HEAD] commit is read. *)
Definition commit (opts : option commit_opts) : M string :=
  files.assertInRepo;;
  config.assertNotBare;;
  treeHash ← write_tree;
  detached ← rd refs.isHeadDetached;
  headDesc ← (if detached : bool then mret (Some "detached HEAD") else rd refs.headBranchName);
  head ← rd (refs.hash (Some "HEAD"));
  nothing ← (if js_neq head (Some "undefined") then
               head ← rd (refs.hash (Some "HEAD"));
               o ← rdE (objects.read head);
               mret (js_eq (Some treeHash) (objects.treeHash o))
             else mret false);
  if nothing : bool then
    throw (Error ("# On " +:+ js_string headDesc +:+ nl
                  +:+ " Nothing to commit - working directory clean."))
  else
  conflictedPaths ← rd index.conflictedPaths;
  merging ← rd merge.isMergeInProgress;
  if merging && bool_decide (0 < length conflictedPaths) then
    throw (Error (join nl ((λ path, "U " +:+ path) <$> conflictedPaths)
                  +:+ " - cannot commit because you have un-merged files."))
  else
  merging ← rd merge.isMergeInProgress;
  m ← (if merging : bool then files.read (files.tigPath "MERGE_MSG")
       else opts ← property "m" opts; mret (opts_m opts));
  parents ← rd refs.commitParentHashes;
  commitHash ← wrR (objects.writeCommit treeHash m parents);
  update_ref "HEAD" commitHash;;
  merging ← rd merge.isMergeInProgress;
  if merging : bool then
    fs.unlinkSync (files.tigPath "MERGE_MSG");;
    wr (refs.rm "MERGE_HEAD");;
    mret "Merge made by three-way strategy."
  else
    mret ("[" +:+ js_string headDesc +:+ " " +:+ commitHash +:+ "] " +:+ js_string m).

(** [tig.branch]: creates a new branch that points at the commit that
    [HEAD] points at; without a name it lists the local branches.  The
    error for a duplicate name is made with [new Errror], which is declared
    nowhere.  The hash of [HEAD] is read once: nothing is written between
    the test and the update. *)
Definition branch (name : jsval) : M jsval :=
  files.assertInRepo;;
  match name with
  | None =>
      heads ← rd refs.localHeads;
      current ← rd refs.headBranchName;
      mret (Some (join nl ((λ branch, (if js_eq (Some branch) current then "*" else " ")
                                       +:+ branch) <$> keys heads) +:+ nl))
  | Some name =>
      head ← rd (refs.hash (Some "HEAD"));
      match head with
      | None => throw (Error (headBranchName_source +:+ " is not a valid object name."))
      | Some head =>
          duplicate ← rd (refs.exists_ (refs.toLocalRef name));
          if duplicate : bool then undeclared "Errror" else
          update_ref (refs.toLocalRef name) head;;
          mret undefined
      end
  end.

(** [tig.checkout]: changes the index, the working copy and [HEAD] to
    reflect the contents of [ref], a branch name or a commit hash.
    [process.chdir(files.workingCopyPath())] changes nothing: commands run
    in the root. *)
Definition checkout (ref : string) : M string :=
  files.assertInRepo;;
  config.assertNotBare;;
  toHash ← rd (refs.hash (Some ref));
  known ← rd (objects.exists_ toHash);
  if negb known then throw (Error (ref +:+ " doesn't match any file known to tig.")) else
  o ← rdE (objects.read toHash);
  if negb (bool_decide (objects.type o = kcommit)) then
    throw (Error ("Reference is not a commit " +:+ ref))
  else
  headBranchName ← rd refs.headBranchName;
  head ← files.read (files.tigPath "HEAD");
  if js_eq (Some ref) headBranchName || js_eq (Some ref) head then
    mret ("You are already on " +:+ ref +:+ " ◕_◕")
  else
  paths ← rdwE (diff.changedFilesCommitWouldOverwrite toHash);
  if bool_decide (0 < length paths) then
    throw (Error ("Local changes would be lost: " +:+ nl +:+ " " +:+ join nl paths
                  +:+ " " +:+ nl))
  else
  isDetachingHead ← rd (objects.exists_ (Some ref));
  head ← rd (refs.hash (Some "HEAD"));
  changes ← rdwE (diff.diff head toHash);
  workingCopy.write changes;;
  wr (refs.write "HEAD" (if isDetachingHead : bool then js_string toHash
                         else "ref: " +:+ refs.toLocalRef ref));;
  toc ← rdE (objects.commitToc toHash);
  wr (index.write (index.tocToIndex toc));;
  mret (if isDetachingHead : bool
        then "Note: Checking out " +:+ js_string toHash +:+ " " +:+ nl
             +:+ " You are in detached HEAD state."
        else "Switched to branch " +:+ ref).

(** [tig.diff]: shows the changes required to go from [ref1] to [ref2].
    The tests for an unknown revision ask that the argument [=== undefined].
    The listing calls [nameToStatus], which is a mapping, on each path. *)
Definition diff (ref1 ref2 : jsval) : M string :=
  files.assertInRepo;;
  config.assertNotBare;;
  unknown1 ← (if js_eq ref1 undefined then
                h ← rd (refs.hash ref1); mret (js_eq h undefined)
              else mret false);
  if unknown1 : bool then
    throw (Error ("Ambiguous argument " +:+ js_string ref1 +:+ ": unknown revision."))
  else
  unknown2 ← (if js_eq ref2 undefined then
                h ← rd (refs.hash ref2); mret (js_eq h undefined)
              else mret false);
  if unknown2 : bool then
    throw (Error ("Ambiguous argument " +:+ js_string ref2 +:+ ": unknown revision."))
  else
  hash1 ← rd (refs.hash ref1);
  hash2 ← rd (refs.hash ref2);
  changes ← rdwE (diff.diff hash1 hash2);
  let nameToStatus := diff.nameStatus changes in
  lines ← mapM (λ path, status ← not_a_function "nameToStatus";
                        mret (status +:+ " " +:+ path))
               (keys nameToStatus);
  mret (join nl lines +:+ nl).

(** [tig.add]: adds files that match [path] to the index. *)
Definition add (path : string) : M unit :=
  files.assertInRepo;;
  config.assertNotBare;;
  addedFiles ← files.lsRecursive path;
  if bool_decide (length addedFiles = 0) then
    throw (Error (files.pathFromRepoRoot path +:+ " did not match any files."))
  else
    forEach (λ path, update_index path (UpdateIndexOpts true false)) addedFiles.

(** [tig.remote]: records the locations of the remote versions of this
    repo.  Only [add] is supported. *)
Definition remote (command : jsval) (name : string) (path : string) : MD string :=
  liftD files.assertInRepo;;
  if js_neq command (Some "add") then throwD (Error "This is not supported.") else
  section ← config_remote.read;
  known ← js_in name section;
  if known : bool then throwD (Error ("Remote: " +:+ name +:+ " already exists")) else
  config ← config_remote.read;
  config_remote.write (util.setIn config name "url" path);;
  mret nl.

End with_digest.
End tig.

(** ** Notions the properties are stated with *)

Section notions.
Context `{!Digest}.

(** [r'] is [r] with tree objects added and nothing else changed. *)
Definition extends_with_trees (r r' : Repo) : Prop :=
  r_config r' = r_config r ∧ r_files r' = r_files r ∧ r_index r' = r_index r ∧
  (∀ h o, r_objects r !! h = Some o → r_objects r' !! h = Some o) ∧
  (∀ h o, r_objects r' !! h = Some o → r_objects r !! h = Some o ∨ objects.type o = ktree).

(** The repository once [commit] has written the tree of the index, and the
    hash of that tree. *)
Definition tree_written (r : Repo) : Repo := (objects.writeTree (index.toc r) r).1.
Definition written_tree (r : Repo) : hash := (objects.writeTree (index.toc r) r).2.

(** The matched files of [rm path] that have changes in the working copy:
    the [changesToRm] of [rm]. *)
Definition changesToRm (p : path) (s : State) : list string :=
  match repo s with
  | Some r =>
      util.intersection (diff.addedOrModifiedFiles r (workingCopy s)) (index.matchingFiles p r)
  | None => []
  end.

(** [HEAD] resolves to a commit whose tree is not the tree of the index:
    there is something to commit. *)
Definition something_to_commit (r : Repo) : Prop :=
  ∃ h o, refs.hash (Some "HEAD") (tree_written r) = Some h
         ∧ objects.read (Some h) (tree_written r) = Ok o
         ∧ objects.treeHash o ≠ Some (written_tree r).

(** The commit object [commit] writes for a message. *)
Definition commit_object (r : Repo) (message : jsval) : object :=
  Commit (written_tree r) (refs.commitParentHashes (tree_written r)) message.

(** The message the spec gives a commit: the content of [MERGE_MSG] when a
    merge is in progress, the message of the options otherwise. *)
Definition spec_commit_message (r : Repo) (opts : option tig.commit_opts) : jsval :=
  if merge.isMergeInProgress r then r_files r !! "MERGE_MSG" else opts ≫= tig.opts_m.

(** The failures of a walk through the object store. *)
Definition store_failure (e : exn) : Prop := e = ObjectNotFound ∨ e = RangeError.

(** No other object is stored under the digest of [o]. *)
Definition no_collision (r : Repo) (o : object) : Prop :=
  match r_objects r !! digest o with
  | Some o' => o' = o
  | None => True
  end.

(** The repository once [add] has staged the file [p] with the content
    [content]: the blob is stored, and the entries of [p] give way to
    one entry at stage 0. *)
Definition staged (p : path) (content : string) (r : Repo) : Repo :=
  with_index (λ es, filter (λ e, e_path e ≠ p) es ++ [Entry p 0 (digest (Blob content))])%list
             (objects.write (Blob content) r).1.

(** The same for a list of files, each with its content in the working
    copy [w]. *)
Definition staged_all (w : gmap string string) (ps : list path) (r : Repo) : Repo :=
  foldl (λ r p, match w !! p with Some content => staged p content r | None => r end) r ps.

(** The path is [p] or lies under the directory [p]. *)
Definition matches (p q : path) : Prop := q = p ∨ starts_with (p +:+ "/") q = true.

End notions.

(** ** Example repositories *)

Module example.

(** The digest of the examples: the canonical text of the object, its kind
    first, stands for its hash. *)
#[export] Instance text_digest : Digest := λ o,
  match o with
  | Blob c => "blob " +:+ c
  | Tree es =>
      "tree " +:+ join "," ((λ e : string * (kind * string), e.1 +:+ ":" +:+ e.2.2) <$> es)
  | Commit t ps m => "commit " +:+ t +:+ " <" +:+ join "," ps +:+ "> " +:+ js_string m
  end.

Definition store (os : list object) : gmap string object :=
  list_to_map ((λ o, (digest o, o)) <$> os).

Definition blob1 : object := Blob "one".
Definition blob2 : object := Blob "two".
Definition blob4 : object := Blob "four".
Definition tree1 : object := Tree [("a.txt", (kblob, digest blob1))].
Definition tree4 : object := Tree [("a.txt", (kblob, digest blob4))].
Definition commit1 : object := Commit (digest tree1) [] (Some "first").
Definition commit4 : object := Commit (digest tree4) [digest commit1] (Some "on feature").

Definition all_objects : gmap string object :=
  store [blob1; blob2; blob4; tree1; tree4; commit1; commit4].

Definition tree2 : object := Tree [("a.txt", (kblob, digest blob2))].

(** An empty directory, and the repository [init] makes of it. *)
Definition empty_directory : State := mkState None ∅.

Definition initialised_repo : Repo :=
  {| r_config := mkConfig false;
     r_files := {[ "HEAD" := "ref: refs/headers/master" +:+ nl ]};
     r_objects := ∅;
     r_index := [] |}.

Definition initialised : State := mkState (Some initialised_repo) ∅.

(** On [master] at [commit1], with a branch [feature] at [commit4];
    [a.txt] is staged with the content "two" and has the content "three"
    in the working copy. *)
Definition staged_and_modified_repo : Repo :=
  {| r_config := mkConfig false;
     r_files := {[ "HEAD" := "ref: refs/heads/master";
                   "refs/heads/master" := digest commit1;
                   "refs/heads/feature" := digest commit4 ]};
     r_objects := all_objects;
     r_index := [Entry "a.txt" 0 (digest blob2)] |}.

Definition staged_and_modified : State :=
  mkState (Some staged_and_modified_repo) {[ "a.txt" := "three" ]}.

(** On [master] at [commit1], [a.txt] left at a conflict stage, and no
    [MERGE_HEAD]. *)
Definition conflict_without_merge_repo : Repo :=
  {| r_config := mkConfig false;
     r_files := {[ "HEAD" := "ref: refs/heads/master";
                   "refs/heads/master" := digest commit1 ]};
     r_objects := all_objects;
     r_index := [Entry "a.txt" 2 (digest blob2)] |}.

Definition conflict_without_merge : State :=
  mkState (Some conflict_without_merge_repo) {[ "a.txt" := "two" ]}.

(** The commit that [commit] with the message "x" makes there. *)
Definition commit2 : object := Commit (digest tree2) [digest commit1] (Some "x").

(** A merge of [feature] into [master] that stopped on a conflict in
    [a.txt]. *)
Definition conflicted_merge_repo : Repo :=
  {| r_config := mkConfig false;
     r_files := {[ "HEAD" := "ref: refs/heads/master";
                   "refs/heads/master" := digest commit1;
                   "refs/heads/feature" := digest commit4;
                   "MERGE_HEAD" := digest commit4;
                   "MERGE_MSG" := "Merge feature into master" ]};
     r_objects := all_objects;
     r_index := [Entry "a.txt" 2 (digest blob1); Entry "a.txt" 3 (digest blob4)] |}.

Definition conflicted_merge : State :=
  mkState (Some conflicted_merge_repo) {[ "a.txt" := "two" ]}.

(** A merge that stopped with [a.txt] staged at a conflict stage only, in
    the version of [master]. *)
Definition delete_modify_merge_repo : Repo :=
  {| r_config := mkConfig false;
     r_files := {[ "HEAD" := "ref: refs/heads/master";
                   "refs/heads/master" := digest commit1;
                   "MERGE_HEAD" := digest commit4;
                   "MERGE_MSG" := "Merge feature into master" ]};
     r_objects := all_objects;
     r_index := [Entry "a.txt" 2 (digest blob1)] |}.

Definition delete_modify_merge : State :=
  mkState (Some delete_modify_merge_repo) {[ "a.txt" := "one" ]}.

(** The same merge once the conflict is staged away. *)
Definition resolved_merge_repo : Repo :=
  {| r_config := mkConfig false;
     r_files := {[ "HEAD" := "ref: refs/heads/master";
                   "refs/heads/master" := digest commit1;
                   "refs/heads/feature" := digest commit4;
                   "MERGE_HEAD" := digest commit4;
                   "MERGE_MSG" := "Merge feature into master" ]};
     r_objects := all_objects;
     r_index := [Entry "a.txt" 0 (digest blob2)] |}.

Definition resolved_merge : State :=
  mkState (Some resolved_merge_repo) {[ "a.txt" := "two" ]}.

(** A bare repository. *)
Definition bare_repo : Repo :=
  {| r_config := mkConfig true;
     r_files := {[ "HEAD" := "ref: refs/heads/master" ]};
     r_objects := ∅;
     r_index := [] |}.

Definition bare : State := mkState (Some bare_repo) ∅.

(** On [master] at [commit1] with a branch [feature] at [commit4]; the
    index and the working copy are those of [commit1]. *)
Definition clean_repo : Repo :=
  {| r_config := mkConfig false;
     r_files := {[ "HEAD" := "ref: refs/heads/master";
                   "refs/heads/master" := digest commit1;
                   "refs/heads/feature" := digest commit4 ]};
     r_objects := all_objects;
     r_index := [Entry "a.txt" 0 (digest blob1)] |}.

Definition clean : State := mkState (Some clean_repo) {[ "a.txt" := "one" ]}.

(** A file in a directory, staged and in the working copy. *)
Definition nested_repo : Repo :=
  {| r_config := mkConfig false;
     r_files := {[ "HEAD" := "ref: refs/heads/master" ]};
     r_objects := store [blob1];
     r_index := [Entry "dir/a.txt" 0 (digest blob1)] |}.

Definition nested : State := mkState (Some nested_repo) {[ "dir/a.txt" := "one" ]}.

(** The resolved merge with its [MERGE_MSG] gone. *)
Definition merge_without_message_repo : Repo :=
  {| r_config := mkConfig false;
     r_files := {[ "HEAD" := "ref: refs/heads/master";
                   "refs/heads/master" := digest commit1;
                   "refs/heads/feature" := digest commit4;
                   "MERGE_HEAD" := digest commit4 ]};
     r_objects := all_objects;
     r_index := [Entry "a.txt" 0 (digest blob2)] |}.

Definition merge_without_message : State :=
  mkState (Some merge_without_message_repo) {[ "a.txt" := "two" ]}.

(** The initialised repository with an empty [remote] section, and with
    the remote [origin]. *)
Definition no_remotes : Disk := mkDisk initialised (Some ∅).

Definition with_origin : Disk :=
  mkDisk initialised (Some {[ "origin" := {[ "url" := "host:repo" ]} ]}).

End example.

(** ** Properties of the commands *)

(** Runs a command as far as the state at hand decides it. *)
Ltac run :=
  repeat progress
    (cbv [mbind M_bind mret M_ret rd rdE wr wrR rdw rdwE throw undeclared property
          not_a_function with_workingCopy forEach
          files.inRepo files.assertInRepo files.read files.writeFilesFromTree
          config.assertNotBare fs.unlinkSync
          tig.write_tree tig.update_ref];
     cbn [repo workingCopy fst snd]).

Ltac run_in H :=
  repeat progress
    (cbv [mbind M_bind mret M_ret rd rdE wr wrR rdw rdwE throw undeclared property
          not_a_function with_workingCopy forEach
          files.inRepo files.assertInRepo files.read files.writeFilesFromTree
          config.assertNotBare fs.unlinkSync
          tig.write_tree tig.update_ref] in H;
     cbn [repo workingCopy fst snd] in H).

(** The same for [remote]. *)
Ltac runD :=
  repeat progress
    (cbv [mbind MD_bind mret MD_ret throwD liftD js_in
          config_remote.read config_remote.write files.assertInRepo];
     cbn [d_state d_remote repo workingCopy fst snd]).

Section properties.
Context `{!Digest}.

(** C9: [init] called while the current directory is already inside a
    repository returns at once without raising an error and writes
    nothing: the state on disk, [HEAD], [config], objects and refs
    included, is the one it was called in. *)
Theorem init_in_repo_changes_nothing (opts : option tig.init_opts) (s : State) :
  is_Some (repo s) → tig.init opts s = (s, Ok tt).
Proof.
  intros [r Hr].
  unfold tig.init, files.inRepo, mbind, M_bind.
  rewrite bool_decide_eq_true_2; [reflexivity | by rewrite Hr].
Qed.

(** C1, as amended: in a non-bare repository, [rm] with the force option
    requested fails with the error "You cannot remove a file with changes"
    and removes nothing, whatever the matched files and their changes. *)
Theorem rm_force_always_fails (p : path) (opts : tig.rm_opts) (s : State) (r : Repo) :
  repo s = Some r →
  core_bare (r_config r) = false →
  tig.opts_f opts = true →
  tig.rm p (Some opts) s = (s, Throw (Error "You cannot remove a file with changes")).
Proof.
  intros Hr Hbare Hf. destruct s as [? w]; simpl in Hr; subst.
  unfold tig.rm. run. rewrite Hbare. run. rewrite Hf. reflexivity.
Qed.

(** As the source stands, no call of [rm] removes anything: with force it
    throws by design, without force it throws at the latest where it reads
    [changestoRm]. *)
Lemma rm_never_removes (p : path) (opts : option tig.rm_opts) (s : State) :
  (tig.rm p opts s).1 = s ∧ ∃ e, (tig.rm p opts s).2 = Throw e.
Proof.
  destruct s as [[r |] w]; unfold tig.rm; run; [| eauto].
  destruct (core_bare (r_config r)); run; [eauto |].
  destruct opts as [opts |]; run; [| eauto].
  destruct (tig.opts_f opts); run; [eauto |].
  case_bool_decide; run; [eauto |].
  unfold fs.existsSync, fs.isDirectory. run.
  case_bool_decide; run.
  - case_bool_decide; cbn [andb]; [destruct (tig.opts_r opts); cbn [negb] |]; run; eauto.
  - cbn [andb]. run. eauto.
Qed.

(** C3: on a directory that is not yet a repository, [init] creates a
    [HEAD] whose content is "ref: refs/headers/master" and a newline; this
    is not of the form [ref: refs/heads/<name>], and [HEAD] names no
    branch. *)
Theorem init_HEAD_points_at_headers (opts : option tig.init_opts) (s : State) :
  repo s = None →
  ∃ r, repo (tig.init opts s).1 = Some r
       ∧ (tig.init opts s).2 = Ok tt
       ∧ r_files r !! "HEAD" = Some ("ref: refs/headers/master" +:+ nl)
       ∧ starts_with "ref: refs/heads/" ("ref: refs/headers/master" +:+ nl) = false
       ∧ refs.headBranchName r = None
       ∧ refs.hash (Some "HEAD") r = None.
Proof.
  intros Hr.
  unfold tig.init, files.inRepo, files.writeFilesFromTree, mbind, M_bind.
  rewrite bool_decide_eq_false_2 by (rewrite Hr; apply is_Some_None).
  eexists. repeat split.
Qed.

(** C8: when the local ref [refs/heads/<name>] already exists and [HEAD]
    resolves, [branch(name)] fails with the reference error of the
    undeclared [Errror], not with an error that tells that the branch
    exists; no ref is written. *)
Theorem branch_duplicate_throws_ReferenceError (source name : string) (s : State)
    (r : Repo) (h : string) :
  repo s = Some r →
  refs.hash (Some "HEAD") r = Some h →
  refs.exists_ (refs.toLocalRef name) r = true →
  tig.branch source (Some name) s = (s, Throw (ReferenceError "Errror is not defined")).
Proof.
  intros Hr Hh Hdup. destruct s as [? w]; simpl in Hr; subst.
  unfold tig.branch. run. rewrite Hh. run. rewrite Hdup. reflexivity.
Qed.

(** *** The object store under [write] *)

Lemma extends_with_trees_refl (r : Repo) : extends_with_trees r r.
Proof. unfold extends_with_trees. naive_solver. Qed.

Lemma extends_with_trees_trans (r1 r2 r3 : Repo) :
  extends_with_trees r1 r2 → extends_with_trees r2 r3 → extends_with_trees r1 r3.
Proof.
  intros (Hc & Hf & Hi & Hup & Hdown) (Hc' & Hf' & Hi' & Hup' & Hdown').
  repeat split; try congruence; [naive_solver |].
  intros h o Ho. destruct (Hdown' h o Ho) as [Ho' | ?]; [eauto | by right].
Qed.

Lemma write_files (o : object) (r : Repo) :
  r_config (objects.write o r).1 = r_config r
  ∧ r_files (objects.write o r).1 = r_files r
  ∧ r_index (objects.write o r).1 = r_index r.
Proof. unfold objects.write. cbn. by destruct (r_objects r !! digest o). Qed.

Lemma write_keeps (o : object) (r : Repo) (h : string) (x : object) :
  r_objects r !! h = Some x → r_objects (objects.write o r).1 !! h = Some x.
Proof.
  intros Hx. unfold objects.write. cbn.
  destruct (r_objects r !! digest o) eqn:Ho; [done |].
  cbn. rewrite lookup_insert_ne; [done | congruence].
Qed.

Lemma write_adds (o : object) (r : Repo) (h : string) (x : object) :
  r_objects (objects.write o r).1 !! h = Some x → r_objects r !! h = Some x ∨ x = o.
Proof.
  unfold objects.write. cbn.
  destruct (r_objects r !! digest o) eqn:Ho; [by left |].
  cbn. rewrite lookup_insert. case_decide; naive_solver.
Qed.

Lemma write_stores (o : object) (r : Repo) :
  no_collision r o → r_objects (objects.write o r).1 !! digest o = Some o.
Proof.
  unfold no_collision, objects.write. cbn.
  destruct (r_objects r !! digest o) eqn:Ho; [by intros -> |].
  intros _. cbn. by rewrite lookup_insert_eq.
Qed.

Lemma write_Tree_extends (es : list (string * (kind * string))) (r : Repo) :
  extends_with_trees r (objects.write (Tree es) r).1.
Proof.
  destruct (write_files (Tree es) r) as (? & ? & ?).
  repeat split; try done.
  - intros h o. apply write_keeps.
  - intros h o Ho. destruct (write_adds _ _ _ _ Ho) as [? | ->]; [by left | by right].
Qed.

Lemma writeNode_extends (t : objects.nested) (r : Repo) :
  extends_with_trees r (objects.writeNode t r).1.
Proof.
  revert r. induction t as [h | cs IH] using objects.nested_ind; intros r.
  - apply extends_with_trees_refl.
  - cbn [objects.writeNode fst].
    match goal with
    | |- context [objects.write (Tree (?go cs r).2) (?go cs r).1] =>
        assert (∀ r0, extends_with_trees r0 (go cs r0).1) as Hlevel
    end.
    { induction IH as [| nc cs' Hnc _ IHcs]; intros r0.
      - apply extends_with_trees_refl.
      - destruct nc as [n c]. cbn.
        eapply extends_with_trees_trans; [apply Hnc | apply IHcs]. }
    eapply extends_with_trees_trans; [apply Hlevel | apply write_Tree_extends].
Qed.

Lemma tree_written_extends (r : Repo) : extends_with_trees r (tree_written r).
Proof. apply writeNode_extends. Qed.

(** *** [commit], step by step *)

Lemma same_files_merging (r r' : Repo) :
  r_files r' = r_files r → merge.isMergeInProgress r' = merge.isMergeInProgress r.
Proof. unfold merge.isMergeInProgress, refs.exists_. by intros ->. Qed.

Lemma write_ref_merging (name value : string) (r : Repo) :
  merge.isMergeInProgress r = true →
  merge.isMergeInProgress (refs.write name value r) = true.
Proof.
  unfold merge.isMergeInProgress, refs.exists_, refs.write. cbn.
  intros Hm%bool_decide_eq_true. apply bool_decide_eq_true.
  rewrite lookup_insert. case_decide; [by eexists | done].
Qed.

Lemma writeCommit_files (t : string) (m : jsval) (ps : list string) (r : Repo) :
  r_files (objects.writeCommit t m ps r).1 = r_files r.
Proof. apply write_files. Qed.

(** A commit that succeeds while a merge is in progress ends in the state
    where the commit object is written, [HEAD] points at it, and
    [MERGE_MSG] and [MERGE_HEAD] are deleted. *)
Lemma commit_in_merge_inv (opts : option tig.commit_opts) (r : Repo)
    (w : gmap string string) (s' : State) (out : string) :
  merge.isMergeInProgress r = true →
  tig.commit opts (mkState (Some r) w) = (s', Ok out) →
  let c := objects.writeCommit (written_tree r) (r_files r !! "MERGE_MSG")
             (refs.commitParentHashes (tree_written r)) (tree_written r) in
  s' = mkState (Some (refs.rm "MERGE_HEAD" (with_files (delete "MERGE_MSG")
                  (refs.write (refs.terminalRef "HEAD" c.1) c.2 c.1)))) w
  ∧ out = "Merge made by three-way strategy.".
Proof.
  intros Hm Hok. unfold tig.commit in Hok. run_in Hok.
  destruct (core_bare (r_config r)); run_in Hok; [discriminate |].
  fold (tree_written r) (written_tree r) in Hok.
  destruct (tree_written_extends r) as (_ & Hfiles & Hindex & _).
  destruct (refs.isHeadDetached (tree_written r)); run_in Hok.
  all: destruct (js_neq (refs.hash (Some "HEAD") (tree_written r)) (Some "undefined"));
    run_in Hok.
  all: try (destruct (objects.read _ (tree_written r)) as [o | e]; run_in Hok;
            [destruct (js_eq _ (objects.treeHash o)); run_in Hok | ]; try discriminate).
  all: rewrite (same_files_merging _ _ Hfiles), Hm in Hok; cbn [andb] in Hok.
  all: destruct (bool_decide (0 < length _)); run_in Hok; [discriminate |].
  all: rewrite (same_files_merging _ _ Hfiles), Hm in Hok; run_in Hok.
  all: rewrite Hfiles in Hok.
  all: match type of Hok with
       | context [objects.writeCommit ?t ?m ?ps ?r1] =>
           set (c := objects.writeCommit t m ps r1) in *
       end.
  all: assert (merge.isMergeInProgress (refs.write (refs.terminalRef "HEAD" c.1) c.2 c.1)
               = true) as Hm'
    by (apply write_ref_merging; rewrite <- Hm; apply same_files_merging;
        subst c; by rewrite writeCommit_files).
  all: rewrite Hm' in Hok; run_in Hok.
  all: destruct (r_files (refs.write _ _ _) !! "MERGE_MSG"); run_in Hok; [| discriminate].
  all: by inversion Hok.
Qed.

(** The objects a commit that succeeds leaves in the store: those of the
    written tree, and the commit object with the message of the spec. *)
Lemma commit_objects_inv (opts : option tig.commit_opts) (r : Repo)
    (w : gmap string string) (s' : State) (out : string) :
  tig.commit opts (mkState (Some r) w) = (s', Ok out) →
  ∃ r', repo s' = Some r'
        ∧ r_objects r'
          = r_objects (objects.write (commit_object r (spec_commit_message r opts))
                         (tree_written r)).1.
Proof.
  intros Hok. unfold tig.commit in Hok. run_in Hok.
  destruct (core_bare (r_config r)); run_in Hok; [discriminate |].
  fold (tree_written r) (written_tree r) in Hok.
  destruct (tree_written_extends r) as (_ & Hfiles & Hindex & _).
  unfold spec_commit_message, commit_object.
  destruct (refs.isHeadDetached (tree_written r)); run_in Hok.
  all: destruct (js_neq (refs.hash (Some "HEAD") (tree_written r)) (Some "undefined"));
    run_in Hok.
  all: try (destruct (objects.read _ (tree_written r)) as [o | e]; run_in Hok;
            [destruct (js_eq _ (objects.treeHash o)); run_in Hok | ]; try discriminate).
  all: rewrite (same_files_merging _ _ Hfiles) in Hok.
  all: destruct (merge.isMergeInProgress r) eqn:Hm; cbn [andb] in Hok.
  all: try (destruct (bool_decide (0 < length _)); run_in Hok; [discriminate |]).
  all: run_in Hok; rewrite ?(same_files_merging _ _ Hfiles), ?Hm, ?Hfiles in Hok.
  all: run_in Hok; rewrite ?Hfiles in Hok.
  all: try (destruct opts as [opts |]; run_in Hok; [| discriminate]).
  all: match type of Hok with
       | context [objects.writeCommit ?t ?m ?ps ?r1] =>
           set (c := objects.writeCommit t m ps r1) in *
       end.
  all: destruct (merge.isMergeInProgress (refs.write _ _ _)); run_in Hok.
  all: try (destruct (r_files (refs.write _ _ _) !! "MERGE_MSG"); run_in Hok;
            [| discriminate]).
  all: inversion Hok; subst; eexists; split; reflexivity.
Qed.

(** While a merge is in progress the options of [commit] are never read. *)
Lemma commit_ignores_options_in_merge (opts opts' : option tig.commit_opts) (r : Repo)
    (w : gmap string string) :
  merge.isMergeInProgress r = true →
  tig.commit opts (mkState (Some r) w) = tig.commit opts' (mkState (Some r) w).
Proof.
  intros Hm. unfold tig.commit. run.
  destruct (core_bare (r_config r)); run; [reflexivity |].
  fold (tree_written r) (written_tree r).
  destruct (tree_written_extends r) as (_ & Hfiles & Hindex & _).
  destruct (refs.isHeadDetached (tree_written r)); run.
  all: destruct (js_neq (refs.hash (Some "HEAD") (tree_written r)) (Some "undefined")); run.
  all: try (destruct (objects.read _ (tree_written r)) as [o | e]; run;
            [destruct (js_eq _ (objects.treeHash o)); run | ]; try reflexivity).
  all: rewrite (same_files_merging _ _ Hfiles), Hm; cbn [andb].
  all: destruct (bool_decide (0 < length _)); run; [reflexivity |].
  all: rewrite (same_files_merging _ _ Hfiles), Hm; reflexivity.
Qed.

(** C7: whenever a merge is in progress and [commit] succeeds, the pending
    merge state is consumed: the [MERGE_MSG] file is deleted and the
    [MERGE_HEAD] ref is removed, so no merge is in progress afterwards. *)
Theorem commit_consumes_merge_state (opts : option tig.commit_opts) (s s' : State)
    (out : string) (r : Repo) :
  repo s = Some r →
  merge.isMergeInProgress r = true →
  tig.commit opts s = (s', Ok out) →
  ∃ r', repo s' = Some r'
        ∧ r_files r' !! "MERGE_MSG" = None
        ∧ r_files r' !! "MERGE_HEAD" = None
        ∧ merge.isMergeInProgress r' = false.
Proof.
  intros Hr Hm Hok. destruct s as [? w]; simpl in Hr; subst.
  destruct (commit_in_merge_inv _ _ _ _ _ Hm Hok) as [-> _].
  eexists. split; [reflexivity |].
  unfold merge.isMergeInProgress, refs.exists_, refs.rm, with_files. cbn.
  rewrite lookup_delete_eq.
  rewrite lookup_delete_ne, lookup_delete_eq by done.
  repeat split.
Qed.

(** C10: a commit that succeeds writes the commit object whose message is
    the content of the [MERGE_MSG] file when a merge is in progress, and
    the message of the options when none is; while a merge is in progress
    the options are ignored altogether. *)
Theorem commit_message_follows_merge_state (opts : option tig.commit_opts) (s s' : State)
    (out : string) (r : Repo) :
  repo s = Some r →
  tig.commit opts s = (s', Ok out) →
  no_collision (tree_written r) (commit_object r (spec_commit_message r opts)) →
  (∃ r', repo s' = Some r'
         ∧ r_objects r' !! digest (commit_object r (spec_commit_message r opts))
           = Some (commit_object r (spec_commit_message r opts)))
  ∧ (merge.isMergeInProgress r = true → ∀ opts', tig.commit opts' s = (s', Ok out)).
Proof.
  intros Hr Hok Hfresh. destruct s as [? w]; simpl in Hr; subst. split.
  - destruct (commit_objects_inv _ _ _ _ _ Hok) as (r' & Hr' & Hobjects).
    exists r'. split; [done |]. rewrite Hobjects. by apply write_stores.
  - intros Hm opts'. by rewrite (commit_ignores_options_in_merge opts' opts).
Qed.

Lemma same_index_conflictedPaths (r r' : Repo) :
  r_index r' = r_index r → index.conflictedPaths r' = index.conflictedPaths r.
Proof. unfold index.conflictedPaths. by intros ->. Qed.

(** [undefined !== "undefined"]: the value is not the text. *)
Lemma undefined_is_not_its_text : js_neq undefined (Some "undefined") = true.
Proof. reflexivity. Qed.

(** C2: in a repository with no prior [HEAD] commit, [commit] fails: the
    test that guards the comparison with the tree of [HEAD] compares the
    unresolved hash with the text "undefined", so the comparison is made and
    reads an object that does not exist.  Only the tree of the index is
    written. *)
Theorem first_commit_fails (opts : option tig.commit_opts) (s : State) (r : Repo) :
  repo s = Some r →
  core_bare (r_config r) = false →
  refs.hash (Some "HEAD") (tree_written r) = None →
  tig.commit opts s = (mkState (Some (tree_written r)) (workingCopy s), Throw ObjectNotFound).
Proof.
  intros Hr Hbare Hhead. destruct s as [? w]; simpl in Hr; subst.
  unfold tig.commit. run. rewrite Hbare. run.
  fold (tree_written r) (written_tree r).
  destruct (refs.isHeadDetached (tree_written r)); run.
  all: rewrite Hhead, undefined_is_not_its_text; run.
  all: rewrite Hhead; reflexivity.
Qed.

(** C6, as amended: in a non-bare repository where a merge is in progress,
    conflicted paths remain staged and [HEAD] resolves to a commit whose
    tree is not the tree of the index, [commit] fails with the error that
    lists the conflicted paths, each after "U ", and creates no commit
    object: it has written the tree of the index and nothing else. *)
Theorem commit_refuses_unmerged_files (opts : option tig.commit_opts) (s : State)
    (r : Repo) :
  repo s = Some r →
  core_bare (r_config r) = false →
  merge.isMergeInProgress r = true →
  index.conflictedPaths r ≠ [] →
  something_to_commit r →
  tig.commit opts s
  = (mkState (Some (tree_written r)) (workingCopy s),
     Throw (Error (join nl ((λ path, "U " +:+ path) <$> index.conflictedPaths r)
                   +:+ " - cannot commit because you have un-merged files.")))
  ∧ (∀ h o, r_objects (tree_written r) !! h = Some o → objects.type o = kcommit →
            r_objects r !! h = Some o).
Proof.
  intros Hr Hbare Hm Hconflicts (h & o & Hhead & Hread & Htree).
  destruct s as [? w]; simpl in Hr; subst.
  destruct (tree_written_extends r) as (_ & Hfiles & Hindex & _ & Hnew).
  split.
  - unfold tig.commit. run. rewrite Hbare. run.
    fold (tree_written r) (written_tree r).
    assert (0 < length (index.conflictedPaths r)) as Hlen
      by (destruct (index.conflictedPaths r); [done | cbn; lia]).
    destruct (refs.isHeadDetached (tree_written r)); run.
    all: rewrite Hhead.
    all: destruct (js_neq (Some h) (Some "undefined")); run.
    all: rewrite ?Hhead, ?Hread; run.
    all: unfold js_eq; rewrite ?bool_decide_eq_false_2 by congruence; run.
    all: rewrite (same_files_merging _ _ Hfiles), Hm.
    all: rewrite (same_index_conflictedPaths _ _ Hindex).
    all: rewrite bool_decide_eq_true_2 by done; reflexivity.
  - intros h' o' Ho' Hkind. destruct (Hnew h' o' Ho') as [? | Htype]; [done |].
    rewrite Htype in Hkind. discriminate.
Qed.

(** *** [diff] and [checkout] *)

Lemma entriesToc_throw (walk : string → string → result (list (string * string)))
    (pre : string) (es : list (string * (kind * string))) (e : exn) :
  (∀ h p e', walk h p = Throw e' → store_failure e') →
  objects.entriesToc walk pre es = Throw e → store_failure e.
Proof.
  intros Hwalk. induction es as [| [n [k h]] es IH]; cbn; [done |].
  case_bool_decide.
  - destruct (walk h _) as [here |] eqn:Hw; cbn; [| intros [= <-]; eauto].
    destruct (objects.entriesToc walk pre es); cbn; [done | intros [= <-]; by apply IH].
  - destruct (objects.entriesToc walk pre es); cbn; [done | intros [= <-]; by apply IH].
Qed.

Lemma treeToc_throw (fuel : nat) (r : Repo) (h pre : string) (e : exn) :
  objects.treeToc fuel r h pre = Throw e → store_failure e.
Proof.
  revert h pre e. induction fuel as [| fuel IH]; intros h pre e; cbn.
  - intros [= <-]. by right.
  - destruct (objects.read (Some h) r) as [o |] eqn:Hread; cbn.
    + destruct o; try (intros [= <-]; by left).
      apply entriesToc_throw. intros h' p e'. apply IH.
    + unfold objects.read in Hread. destruct (_ ≫= _); [done |].
      injection Hread as <-. intros [= <-]. by left.
Qed.

Lemma commitToc_throw (h : jsval) (r : Repo) (e : exn) :
  objects.commitToc h r = Throw e → store_failure e.
Proof.
  unfold objects.commitToc, mbind, result_bind.
  destruct (objects.read h r) as [o |] eqn:Hread.
  - destruct o; try (intros [= <-]; by left).
    destruct (objects.treeToc (S (size (r_objects r))) r tree EmptyString) eqn:Hwalk;
      [done |].
    intros [= <-]. by eapply treeToc_throw.
  - unfold objects.read in Hread. destruct (_ ≫= _); [done |].
    injection Hread as <-. intros [= <-]. by left.
Qed.

Lemma diff_throw (hashA hashB : jsval) (r : Repo) (w : gmap string string) (e : exn) :
  diff.diff hashA hashB r w = Throw e → store_failure e.
Proof.
  unfold diff.diff.
  destruct hashA as [a |], hashB as [b |]; cbn.
  - destruct (objects.commitToc (Some a) r) eqn:Ha; cbn;
      [| intros [= <-]; by eapply commitToc_throw].
    destruct (objects.commitToc (Some b) r) eqn:Hb; cbn;
      [done | intros [= <-]; by eapply commitToc_throw].
  - destruct (objects.commitToc (Some a) r) eqn:Ha; cbn;
      [done | intros [= <-]; by eapply commitToc_throw].
  - destruct (objects.commitToc (Some b) r) eqn:Hb; cbn;
      [done | intros [= <-]; by eapply commitToc_throw].
  - done.
Qed.

(** C4: with both refs supplied, [diff] never fails with the error of an
    unknown revision, nor with any [Error] of its own, whether the refs
    resolve or not; it leaves the state as it is. *)
Theorem diff_supplied_refs_never_unknown_revision (ref1 ref2 : string) (s : State)
    (message : string) :
  (tig.diff (Some ref1) (Some ref2) s).2 ≠ Throw (Error message)
  ∧ (tig.diff (Some ref1) (Some ref2) s).1 = s.
Proof.
  destruct s as [[r |] w]; unfold tig.diff; run; [| done].
  destruct (core_bare (r_config r)); run; [done |].
  change (js_eq (Some ref1) undefined) with false.
  change (js_eq (Some ref2) undefined) with false. run.
  destruct (diff.diff _ _ r w) as [changes | e] eqn:Hdiff; run.
  - destruct (keys (diff.nameStatus changes)); cbn [mapM]; run; done.
  - split; [| done]. intros [= ->].
    destruct (diff_throw _ _ _ _ _ Hdiff); discriminate.
Qed.

Lemma changedFiles_ok_commit (target : jsval) (r : Repo) (w : gmap string string)
    (paths : list string) :
  diff.changedFilesCommitWouldOverwrite target r w = Ok paths →
  objects.exists_ target r = true
  ∧ ∃ o, objects.read target r = Ok o ∧ objects.type o = kcommit.
Proof.
  unfold diff.changedFilesCommitWouldOverwrite, objects.commitToc.
  destruct (objects.read target r) as [o |] eqn:Hread; cbn; [| done].
  intros Hpaths. split.
  - unfold objects.read in Hread. unfold objects.exists_.
    destruct (target ≫= _); [| done]. by apply bool_decide_eq_true_2.
  - exists o. split; [done |]. by destruct o.
Qed.

(** C5, as amended: in a non-bare repository, for a target that is not
    the branch or the detached hash [HEAD] is already on, when
    [changedFilesCommitWouldOverwrite] of the target hash is non-empty,
    [checkout] fails with the error that lists those paths and changes
    nothing on disk: working copy, [HEAD] and index are as they were. *)
Theorem checkout_refuses_to_lose_changes (ref : string) (s : State) (r : Repo)
    (paths : list string) :
  repo s = Some r →
  core_bare (r_config r) = false →
  refs.headBranchName r ≠ Some ref →
  r_files r !! "HEAD" ≠ Some ref →
  diff.changedFilesCommitWouldOverwrite (refs.hash (Some ref) r) r (workingCopy s) = Ok paths →
  paths ≠ [] →
  tig.checkout ref s
  = (s, Throw (Error ("Local changes would be lost: " +:+ nl +:+ " " +:+ join nl paths
                      +:+ " " +:+ nl))).
Proof.
  intros Hr Hbare Hbranch Hhead Hpaths Hne.
  destruct s as [? w]; cbn [repo workingCopy] in *; subst.
  destruct (changedFiles_ok_commit _ _ _ _ Hpaths) as (Hknown & o & Hread & Hkind).
  unfold tig.checkout. run. rewrite Hbare. run.
  rewrite Hknown. cbn [negb]. run. rewrite Hread. run.
  rewrite Hkind, bool_decide_eq_true_2 by done. cbn [negb]. run.
  unfold js_eq. rewrite !bool_decide_eq_false_2 by congruence. cbn [orb]. run.
  rewrite Hpaths. run.
  rewrite bool_decide_eq_true_2 by (destruct paths; [done | cbn; lia]).
  reflexivity.
Qed.

(** ** Further properties of the commands *)

(** *** All commands *)

(** Outside a repository every command but [init] fails with
    [NotARepository] before it reads or writes anything. *)
Theorem commands_need_a_repository (s : State) (p ref name source url : string)
    (rmo : option tig.rm_opts) (co : option tig.commit_opts) (ref1 ref2 command : jsval)
    (branchName : jsval) (remotes : option (gmap string (gmap string string))) :
  repo s = None →
  tig.add p s = (s, Throw NotARepository)
  ∧ tig.rm p rmo s = (s, Throw NotARepository)
  ∧ tig.commit co s = (s, Throw NotARepository)
  ∧ tig.branch source branchName s = (s, Throw NotARepository)
  ∧ tig.checkout ref s = (s, Throw NotARepository)
  ∧ tig.diff ref1 ref2 s = (s, Throw NotARepository)
  ∧ tig.remote command name url (mkDisk s remotes) = (mkDisk s remotes, Throw NotARepository).
Proof.
  intros Hr. destruct s as [? w]; cbn in Hr; subst.
  repeat split.
Qed.

(** In a bare repository [add], [rm], [commit], [checkout] and [diff] fail
    with [BareRepositoryViolation] and change nothing. *)
Theorem working_copy_commands_refuse_bare (s : State) (r : Repo) (p ref : string)
    (rmo : option tig.rm_opts) (co : option tig.commit_opts) (ref1 ref2 : jsval) :
  repo s = Some r →
  core_bare (r_config r) = true →
  tig.add p s = (s, Throw BareRepositoryViolation)
  ∧ tig.rm p rmo s = (s, Throw BareRepositoryViolation)
  ∧ tig.commit co s = (s, Throw BareRepositoryViolation)
  ∧ tig.checkout ref s = (s, Throw BareRepositoryViolation)
  ∧ tig.diff ref1 ref2 s = (s, Throw BareRepositoryViolation).
Proof.
  intros Hr Hbare. destruct s as [? w]; cbn in Hr; subst.
  repeat split.
  - unfold tig.add. run. rewrite Hbare. reflexivity.
  - unfold tig.rm. run. rewrite Hbare. reflexivity.
  - unfold tig.commit. run. rewrite Hbare. reflexivity.
  - unfold tig.checkout. run. rewrite Hbare. reflexivity.
  - unfold tig.diff. run. rewrite Hbare. reflexivity.
Qed.


(** *** [rm] *)

(** [rm] does not default its options: called without them in a non-bare
    repository it fails, on reading [opts.f], with a type error, whatever
    the path matches. *)
Theorem rm_without_options_is_a_type_error (p : path) (s : State) (r : Repo) :
  repo s = Some r →
  core_bare (r_config r) = false →
  tig.rm p None s
  = (s, Throw (TypeError "Cannot read properties of undefined (reading 'f')")).
Proof.
  intros Hr Hbare. destruct s as [? w]; cbn in Hr; subst.
  unfold tig.rm. run. rewrite Hbare. reflexivity.
Qed.

(** Without force, [rm] of a path that matches no staged file fails with
    the error that names the path. *)
Theorem rm_reports_no_match (p : path) (opts : tig.rm_opts) (s : State) (r : Repo) :
  repo s = Some r →
  core_bare (r_config r) = false →
  tig.opts_f opts = false →
  index.matchingFiles p r = [] →
  tig.rm p (Some opts) s = (s, Throw (Error (p +:+ " did not match any files."))).
Proof.
  intros Hr Hbare Hf Hnone. destruct s as [? w]; cbn in Hr; subst.
  unfold tig.rm. run. rewrite Hbare. run. rewrite Hf, Hnone. reflexivity.
Qed.

(** Without force and without [-r], [rm] of a path that matches staged
    files and is a directory of the working copy fails and asks for
    [-r]. *)
Theorem rm_of_a_directory_needs_r (p : path) (opts : tig.rm_opts) (s : State) (r : Repo) :
  repo s = Some r →
  core_bare (r_config r) = false →
  tig.opts_f opts = false →
  tig.opts_r opts = false →
  index.matchingFiles p r ≠ [] →
  Exists (λ q, starts_with (p +:+ "/") q = true) (keys (workingCopy s)) →
  tig.rm p (Some opts) s
  = (s, Throw (Error ("You need to add run this operation recursively. Please pass "
                      +:+ dq +:+ "-r" +:+ dq +:+ " as an option. "))).
Proof.
  intros Hr Hbare Hf Hrec Hsome Hdir. destruct s as [? w]; cbn in Hr, Hdir; subst.
  unfold tig.rm. run. rewrite Hbare. run. rewrite Hf.
  rewrite bool_decide_eq_false_2 by (by destruct (index.matchingFiles p r)).
  unfold fs.existsSync, fs.isDirectory. run.
  rewrite bool_decide_eq_true_2 by (by right). run.
  rewrite bool_decide_eq_true_2 by done. rewrite Hrec. reflexivity.
Qed.

(** Without force, [rm] of a path that matches staged files, with [-r] or
    on a path that is no directory, gets as far as the test for changed
    files and fails there on the undeclared [changestoRm], whether a file
    has changes or not. *)
Theorem rm_without_force_is_a_reference_error (p : path) (opts : tig.rm_opts) (s : State)
    (r : Repo) :
  repo s = Some r →
  core_bare (r_config r) = false →
  tig.opts_f opts = false →
  index.matchingFiles p r ≠ [] →
  tig.opts_r opts = true
  ∨ ¬ Exists (λ q, starts_with (p +:+ "/") q = true) (keys (workingCopy s)) →
  tig.rm p (Some opts) s = (s, Throw (ReferenceError "changestoRm is not defined")).
Proof.
  intros Hr Hbare Hf Hsome Hdir. destruct s as [? w]; cbn in Hr, Hdir; subst.
  unfold tig.rm. run. rewrite Hbare. run. rewrite Hf.
  rewrite bool_decide_eq_false_2 by (by destruct (index.matchingFiles p r)).
  unfold fs.existsSync, fs.isDirectory. run.
  case_bool_decide; run.
  - destruct Hdir as [-> | Hno].
    + rewrite andb_false_r. run. reflexivity.
    + rewrite (bool_decide_eq_false_2 _ Hno). reflexivity.
  - reflexivity.
Qed.

(** *** [commit] *)

(** Where a commit can end: where it began (bare), with only the tree of
    the index written, with the commit written and [HEAD] moved, or with
    the merge state deleted as well. *)
Lemma commit_outcomes (opts : option tig.commit_opts) (r : Repo) (w : gmap string string) :
  let c m := objects.writeCommit (written_tree r) m
               (refs.commitParentHashes (tree_written r)) (tree_written r) in
  let moved m := refs.write (refs.terminalRef "HEAD" (c m).1) (c m).2 (c m).1 in
  tig.commit opts (mkState (Some r) w) = (mkState (Some r) w, Throw BareRepositoryViolation)
  ∨ (∃ e, tig.commit opts (mkState (Some r) w) = (mkState (Some (tree_written r)) w, Throw e)
          ∧ e ≠ ENOENT "MERGE_MSG")
  ∨ (∃ m, tig.commit opts (mkState (Some r) w)
          = (mkState (Some (moved m)) w, Throw (ENOENT "MERGE_MSG")))
  ∨ (∃ m out, tig.commit opts (mkState (Some r) w) = (mkState (Some (moved m)) w, Ok out))
  ∨ (∃ m out, tig.commit opts (mkState (Some r) w)
              = (mkState (Some (refs.rm "MERGE_HEAD"
                                  (with_files (delete "MERGE_MSG") (moved m)))) w, Ok out)).
Proof.
  intros c moved. unfold tig.commit. run.
  destruct (core_bare (r_config r)); run; [by left |]. right.
  fold (tree_written r) (written_tree r).
  destruct (refs.isHeadDetached (tree_written r)); run.
  all: destruct (js_neq (refs.hash (Some "HEAD") (tree_written r)) (Some "undefined")); run.
  all: try (destruct (objects.read _ (tree_written r)) as [o | e] eqn:Hread; run;
            [destruct (js_eq _ (objects.treeHash o)); run | ]).
  all: try (left; eexists; split; [reflexivity | ];
            first [ discriminate
                  | unfold objects.read in Hread; destruct (_ ≫= _); [done |];
                    injection Hread as <-; discriminate ]).
  all: destruct (merge.isMergeInProgress (tree_written r)) eqn:Hm; cbn [andb]; run.
  all: try (destruct (bool_decide (0 < length _)); run;
            [left; eexists; split; [reflexivity | discriminate] |]).
  all: rewrite ?Hm; run.
  all: try (destruct opts as [opts |]; run;
            [| left; eexists; split; [reflexivity | discriminate]]).
  all: match goal with
       | |- context [objects.writeCommit ?t ?m ?ps ?r1] =>
           change (objects.writeCommit t m ps r1) with (c m);
           change (refs.write (refs.terminalRef "HEAD" (c m).1) (c m).2 (c m).1)
             with (moved m)
       end.
  all: destruct (merge.isMergeInProgress (moved _)); run.
  all: try (destruct (r_files (moved _) !! "MERGE_MSG"); run).
  all: right; eauto 10.
Qed.

Lemma same_files_terminalRef (name : string) (r r' : Repo) :
  r_files r' = r_files r → refs.terminalRef name r' = refs.terminalRef name r.
Proof. unfold refs.terminalRef, refs.symbolicTarget. by intros ->. Qed.

Lemma refs_write_files (name value : string) (r : Repo) :
  r_files (refs.write name value r) = <[name := value]> (r_files r).
Proof. reflexivity. Qed.

Lemma terminalRef_HEAD (r : Repo) :
  refs.terminalRef "HEAD" r = default "HEAD" (refs.symbolicTarget r).
Proof. reflexivity. Qed.

Lemma same_terminalRef_HEAD (r r' : Repo) :
  r_files r' !! "HEAD" = r_files r !! "HEAD" →
  refs.terminalRef "HEAD" r' = refs.terminalRef "HEAD" r.
Proof. unfold refs.terminalRef, refs.symbolicTarget. by intros ->. Qed.

Lemma same_files_headBranchName (r r' : Repo) :
  r_files r' = r_files r → refs.headBranchName r' = refs.headBranchName r.
Proof. unfold refs.headBranchName, refs.symbolicTarget. by intros ->. Qed.

Lemma same_files_isHeadDetached (r r' : Repo) :
  r_files r' = r_files r → refs.isHeadDetached r' = refs.isHeadDetached r.
Proof. unfold refs.isHeadDetached, refs.symbolicTarget. by intros ->. Qed.

Lemma writeCommit_keeps (t : string) (m : jsval) (ps : list string) (r : Repo) :
  r_config (objects.writeCommit t m ps r).1 = r_config r
  ∧ r_index (objects.writeCommit t m ps r).1 = r_index r
  ∧ (∀ h o, r_objects r !! h = Some o →
            r_objects (objects.writeCommit t m ps r).1 !! h = Some o).
Proof.
  unfold objects.writeCommit.
  destruct (write_files (Commit t ps m) r) as (? & ? & ?).
  repeat split; try done. intros h o. apply write_keeps.
Qed.

(** Whatever its outcome, [commit] leaves the working copy, the index and
    the config as they are, and every object that was stored stays stored
    under its hash. *)
Theorem commit_keeps_index_and_objects (opts : option tig.commit_opts) (s : State)
    (r : Repo) :
  repo s = Some r →
  ∃ r', repo (tig.commit opts s).1 = Some r'
        ∧ workingCopy (tig.commit opts s).1 = workingCopy s
        ∧ r_index r' = r_index r
        ∧ r_config r' = r_config r
        ∧ (∀ h o, r_objects r !! h = Some o → r_objects r' !! h = Some o).
Proof.
  intros Hr. destruct s as [? w]; cbn in Hr; subst.
  destruct (tree_written_extends r) as (Hconfig & Hfiles & Hindex & Hkeep & _).
  pose proof (writeCommit_keeps (written_tree r)) as Hc.
  destruct (commit_outcomes opts r w)
    as [-> | [(e & -> & _) | [(m & ->) | [(m & out & ->) | (m & out & ->)]]]];
    cbn [fst repo workingCopy]; eexists; (split; [reflexivity |]);
    try (destruct (Hc m (refs.commitParentHashes (tree_written r)) (tree_written r))
           as (Hc1 & Hc2 & Hc3));
    cbv [refs.rm refs.write with_files]; cbn [r_index r_config r_objects];
    repeat split; try congruence; eauto.
Qed.

(** A commit that fails moves no ref, unless it fails on deleting
    [MERGE_MSG]: every file of the repository directory is as it was. *)
Theorem failed_commit_moves_no_ref (opts : option tig.commit_opts) (s : State) (r : Repo)
    (e : exn) :
  repo s = Some r →
  (tig.commit opts s).2 = Throw e →
  e ≠ ENOENT "MERGE_MSG" →
  ∃ r', repo (tig.commit opts s).1 = Some r' ∧ r_files r' = r_files r.
Proof.
  intros Hr Hthrow He. destruct s as [? w]; cbn in Hr; subst.
  destruct (tree_written_extends r) as (_ & Hfiles & _).
  destruct (commit_outcomes opts r w)
    as [Hc | [(e' & Hc & _) | [(m & Hc) | [(m & out & Hc) | (m & out & Hc)]]]];
    rewrite Hc in Hthrow |- *; cbn in Hthrow; try discriminate.
  - eauto.
  - eauto.
  - congruence.
Qed.

(** A commit that fails on deleting [MERGE_MSG] has already written the
    commit and moved [HEAD]: the ref [HEAD] stands for holds the hash of a
    new commit object, and nothing else of the refs has changed. *)
Theorem commit_can_fail_after_moving_HEAD (opts : option tig.commit_opts) (s : State)
    (r : Repo) :
  repo s = Some r →
  (tig.commit opts s).2 = Throw (ENOENT "MERGE_MSG") →
  ∃ r' m, repo (tig.commit opts s).1 = Some r'
          ∧ r_files r'
            = <[refs.terminalRef "HEAD" r := digest (commit_object r m)]> (r_files r).
Proof.
  intros Hr Hthrow. destruct s as [? w]; cbn in Hr; subst.
  destruct (tree_written_extends r) as (_ & Hfiles & _).
  destruct (commit_outcomes opts r w)
    as [Hc | [(e' & Hc & He) | [(m & Hc) | [(m & out & Hc) | (m & out & Hc)]]]];
    rewrite Hc in Hthrow |- *; cbn in Hthrow; try discriminate.
  - congruence.
  - eexists _, m. split; [reflexivity |].
    cbv [refs.write with_files]. cbn [r_files].
    rewrite (same_files_terminalRef "HEAD" r) by (by rewrite writeCommit_files).
    rewrite writeCommit_files, Hfiles. reflexivity.
Qed.

(** When [HEAD] resolves to a commit whose tree is the tree of the index,
    [commit] fails with the nothing-to-commit error, which names the
    branch or the detached [HEAD]; this comes before the test for
    conflicts and before any use of the options.  The test is skipped
    for a [HEAD] whose hash is the text "undefined". *)
Theorem commit_with_the_tree_of_HEAD_has_nothing_to_commit (opts : option tig.commit_opts)
    (s : State) (r : Repo) (h : string) (o : object) :
  repo s = Some r →
  core_bare (r_config r) = false →
  refs.hash (Some "HEAD") (tree_written r) = Some h →
  h ≠ "undefined" →
  objects.read (Some h) (tree_written r) = Ok o →
  objects.treeHash o = Some (written_tree r) →
  tig.commit opts s
  = (mkState (Some (tree_written r)) (workingCopy s),
     Throw (Error ("# On "
                   +:+ js_string (if refs.isHeadDetached r then Some "detached HEAD"
                                  else refs.headBranchName r)
                   +:+ nl +:+ " Nothing to commit - working directory clean."))).
Proof.
  intros Hr Hbare Hhead Hh Hread Htree. destruct s as [? w]; cbn in Hr; subst.
  destruct (tree_written_extends r) as (_ & Hfiles & _).
  unfold tig.commit. run. rewrite Hbare. run.
  fold (tree_written r) (written_tree r).
  rewrite (same_files_isHeadDetached _ _ Hfiles).
  destruct (refs.isHeadDetached r); run.
  all: rewrite ?(same_files_headBranchName _ _ Hfiles).
  all: rewrite Hhead; unfold js_neq, js_eq.
  all: rewrite (bool_decide_eq_false_2 (Some h = Some "undefined")) by congruence.
  all: cbn [negb]; run; rewrite Hhead, Hread; run.
  all: rewrite Htree, bool_decide_eq_true_2 by done; reflexivity.
Qed.

(** Outside a merge [commit] needs its options: called without them where
    there is something to commit, it fails on reading [opts.m] with a type
    error, having written the tree of the index and nothing else. *)
Theorem commit_without_options_is_a_type_error (s : State) (r : Repo) :
  repo s = Some r →
  core_bare (r_config r) = false →
  merge.isMergeInProgress r = false →
  something_to_commit r →
  tig.commit None s
  = (mkState (Some (tree_written r)) (workingCopy s),
     Throw (TypeError "Cannot read properties of undefined (reading 'm')")).
Proof.
  intros Hr Hbare Hm (h & o & Hhead & Hread & Htree).
  destruct s as [? w]; cbn in Hr; subst.
  destruct (tree_written_extends r) as (_ & Hfiles & _).
  unfold tig.commit. run. rewrite Hbare. run.
  fold (tree_written r) (written_tree r).
  destruct (refs.isHeadDetached (tree_written r)); run.
  all: rewrite Hhead.
  all: destruct (js_neq (Some h) (Some "undefined")); run.
  all: rewrite ?Hhead, ?Hread; run.
  all: unfold js_eq; rewrite ?bool_decide_eq_false_2 by congruence; run.
  all: rewrite (same_files_merging _ _ Hfiles), Hm; cbn [andb]; run.
  all: rewrite (same_files_merging _ _ Hfiles), Hm; reflexivity.
Qed.

(** A commit that succeeds outside a merge moves the ref [HEAD] stands
    for, the branch it is attached to or [HEAD] itself when detached, to
    the hash of the new commit and changes no other file of the
    repository directory; it returns the branch, the hash and the
    message. *)
Theorem commit_moves_the_branch (opts : tig.commit_opts) (s s' : State) (out : string)
    (r : Repo) :
  repo s = Some r →
  merge.isMergeInProgress r = false →
  refs.symbolicTarget r ≠ Some "MERGE_HEAD" →
  tig.commit (Some opts) s = (s', Ok out) →
  let hash := digest (commit_object r (tig.opts_m opts)) in
  (∃ r', repo s' = Some r'
         ∧ r_files r' = <[refs.terminalRef "HEAD" r := hash]> (r_files r))
  ∧ out = "[" +:+ js_string (if refs.isHeadDetached r then Some "detached HEAD"
                             else refs.headBranchName r)
          +:+ " " +:+ hash +:+ "] " +:+ js_string (tig.opts_m opts).
Proof.
  intros Hr Hm Htarget Hok hash. destruct s as [? w]; cbn in Hr; subst.
  destruct (tree_written_extends r) as (_ & Hfiles & _).
  unfold tig.commit in Hok. run_in Hok.
  destruct (core_bare (r_config r)); run_in Hok; [discriminate |].
  fold (tree_written r) (written_tree r) in Hok.
  rewrite (same_files_isHeadDetached _ _ Hfiles) in Hok.
  destruct (refs.isHeadDetached r); run_in Hok.
  all: rewrite ?(same_files_headBranchName _ _ Hfiles) in Hok.
  all: destruct (js_neq (refs.hash (Some "HEAD") (tree_written r)) (Some "undefined"));
    run_in Hok.
  all: try (destruct (objects.read _ (tree_written r)) as [o | e]; run_in Hok;
            [destruct (js_eq _ (objects.treeHash o)); run_in Hok | ]; try discriminate).
  all: rewrite (same_files_merging _ _ Hfiles), Hm in Hok; cbn [andb] in Hok; run_in Hok.
  all: rewrite (same_files_merging _ _ Hfiles), Hm in Hok; run_in Hok.
  all: match type of Hok with
       | context [objects.writeCommit ?t ?m ?ps ?r1] =>
           set (c := objects.writeCommit t m ps r1) in *
       end.
  all: assert (r_files c.1 = r_files r) as Hc
    by (subst c; by rewrite writeCommit_files).
  all: rewrite (same_files_terminalRef "HEAD" _ _ Hc) in Hok.
  all: assert (merge.isMergeInProgress (refs.write (refs.terminalRef "HEAD" r) c.2 c.1)
               = false) as Hm'
    by (unfold merge.isMergeInProgress, refs.exists_ in *;
        cbv [refs.write with_files]; cbn [r_files];
        apply bool_decide_eq_false_2; apply bool_decide_eq_false in Hm;
        rewrite Hc, lookup_insert_ne; [done |];
        rewrite terminalRef_HEAD; destruct (refs.symbolicTarget r); cbn; congruence).
  all: rewrite Hm' in Hok; run_in Hok.
  all: injection Hok as <- <-; split; [| reflexivity].
  all: exists (refs.write (refs.terminalRef "HEAD" r) c.2 c.1); split; [reflexivity |].
  all: rewrite refs_write_files, Hc; reflexivity.
Qed.

(** *** [branch] *)

Lemma starts_with_append (p s : string) : starts_with p (p +:+ s) = true.
Proof.
  unfold starts_with. induction p as [| a p IH].
  - by destruct s.
  - change (String.prefix (String a p) (String a (p +:+ s)) = true).
    cbn [String.prefix]. destruct (Ascii.ascii_dec a a); [exact IH | congruence].
Qed.

Lemma toLocalRef_is_not_HEAD (name : string) : refs.toLocalRef name ≠ "HEAD".
Proof. unfold refs.toLocalRef. cbn. discriminate. Qed.

Lemma terminalRef_toLocalRef (name : string) (r : Repo) :
  refs.terminalRef (refs.toLocalRef name) r = refs.toLocalRef name.
Proof.
  unfold refs.terminalRef.
  rewrite bool_decide_eq_false_2 by apply toLocalRef_is_not_HEAD.
  assert (refs.isRef (refs.toLocalRef name) = true) as ->; [| reflexivity].
  unfold refs.isRef.
  rewrite !bool_decide_eq_false_2 by (unfold refs.toLocalRef; cbn; discriminate).
  unfold refs.toLocalRef. by rewrite starts_with_append.
Qed.

(** Where [HEAD] does not resolve, as before the first commit,
    [branch(name)] fails and writes no ref; its message is made of the
    text of the function [refs.headBranchName], which the source does not
    call, so that it names neither the branch [HEAD] is on nor the new
    one. *)
Theorem branch_needs_a_HEAD_commit (source name : string) (s : State) (r : Repo) :
  repo s = Some r →
  refs.hash (Some "HEAD") r = None →
  tig.branch source (Some name) s
  = (s, Throw (Error (source +:+ " is not a valid object name."))).
Proof.
  intros Hr Hhead. destruct s as [? w]; cbn in Hr; subst.
  unfold tig.branch. run. rewrite Hhead. reflexivity.
Qed.

Lemma branch_runs (source name : string) (r : Repo) (w : gmap string string) (h : string) :
  refs.hash (Some "HEAD") r = Some h →
  refs.exists_ (refs.toLocalRef name) r = false →
  tig.branch source (Some name) (mkState (Some r) w)
  = (mkState (Some (refs.write (refs.toLocalRef name) h r)) w, Ok undefined).
Proof.
  intros Hhead Hnew. unfold tig.branch. run. rewrite Hhead. run. rewrite Hnew. run.
  by rewrite terminalRef_toLocalRef.
Qed.

(** [branch(name)] for a new name writes the one ref
    [refs/heads/<name>], with the hash [HEAD] resolves to, and returns
    [undefined]; [HEAD] stays on the branch it was on, and this in a bare
    repository too. *)
Theorem branch_creates_the_ref (source name : string) (s : State) (r : Repo) (h : string) :
  repo s = Some r →
  refs.hash (Some "HEAD") r = Some h →
  refs.exists_ (refs.toLocalRef name) r = false →
  tig.branch source (Some name) s
  = (mkState (Some (refs.write (refs.toLocalRef name) h r)) (workingCopy s), Ok undefined)
  ∧ r_files (refs.write (refs.toLocalRef name) h r) !! refs.toLocalRef name = Some h
  ∧ refs.headBranchName (refs.write (refs.toLocalRef name) h r) = refs.headBranchName r.
Proof.
  intros Hr Hhead Hnew. destruct s as [? w]; cbn in Hr; subst.
  repeat split.
  - by apply branch_runs.
  - rewrite refs_write_files. apply lookup_insert_eq.
  - unfold refs.headBranchName, refs.symbolicTarget.
    rewrite refs_write_files, lookup_insert_ne; [done | apply toLocalRef_is_not_HEAD].
Qed.

(** A branch that [branch(name)] has just created is a duplicate for the
    next [branch(name)], which fails on the undeclared [Errror] and leaves
    the ref as the first call wrote it. *)
Theorem branch_twice_fails (source name : string) (s : State) (r : Repo) (h : string) :
  repo s = Some r →
  refs.hash (Some "HEAD") r = Some h →
  refs.exists_ (refs.toLocalRef name) r = false →
  tig.branch source (Some name) (tig.branch source (Some name) s).1
  = ((tig.branch source (Some name) s).1, Throw (ReferenceError "Errror is not defined")).
Proof.
  intros Hr Hhead Hnew. destruct s as [? w]; cbn in Hr; subst.
  rewrite (branch_runs source name r w h Hhead Hnew).
  cbn [fst]. set (r' := refs.write (refs.toLocalRef name) h r) in *.
  assert (r_files r' !! refs.toLocalRef name = Some h) as Hfile.
  { subst r'. rewrite refs_write_files. apply lookup_insert_eq. }
  assert (is_Some (refs.hash (Some "HEAD") r')) as [h' Hhead'].
  { unfold refs.hash in *. cbn [mbind option_bind] in *.
    change (objects.exists_ (Some "HEAD") r') with (objects.exists_ (Some "HEAD") r).
    destruct (objects.exists_ (Some "HEAD") r); [by eexists |].
    rewrite (same_terminalRef_HEAD r r').
    - subst r'. rewrite refs_write_files, lookup_insert. case_decide; [by eexists |].
      rewrite Hhead. by eexists.
    - subst r'. rewrite refs_write_files, lookup_insert_ne;
        [done | apply toLocalRef_is_not_HEAD]. }
  unfold tig.branch. run. rewrite Hhead'. run.
  unfold refs.exists_. rewrite Hfile, bool_decide_eq_true_2 by (by eexists).
  reflexivity.
Qed.

(** *** [checkout] *)

Lemma write_path_keeps_repo (pc : string * diff.change) (s : State) :
  repo (workingCopy.write_path pc s).1 = repo s.
Proof.
  unfold workingCopy.write_path.
  destruct (diff.c_status pc.2); run; try reflexivity.
  all: destruct s as [[r |] w]; run; try reflexivity.
  all: destruct (objects.read _ r) as [[] |]; reflexivity.
Qed.

Lemma mapM_write_path_keeps_repo (l : list (string * diff.change)) (s : State) :
  repo (mapM workingCopy.write_path l s).1 = repo s.
Proof.
  revert s. induction l as [| pc l IH]; intros s; [reflexivity |].
  cbn [mapM]. unfold mbind, M_bind.
  pose proof (write_path_keeps_repo pc s) as Hpc.
  destruct (workingCopy.write_path pc s) as [s1 [[] | e]]; cbn [fst] in *; [| done].
  pose proof (IH s1) as Hl.
  destruct (mapM workingCopy.write_path l s1) as [s2 [ys | e]];
    unfold mret, M_ret; cbn [fst] in *; congruence.
Qed.

Lemma workingCopy_write_keeps_repo (d : gmap string diff.change) (s : State) :
  repo (workingCopy.write d s).1 = repo s.
Proof.
  unfold workingCopy.write, forEach, mbind, M_bind.
  pose proof (mapM_write_path_keeps_repo (map_to_list d) s) as Hl.
  by destruct (mapM workingCopy.write_path (map_to_list d) s) as [s1 [ys | e]];
    unfold mret, M_ret.
Qed.

Lemma read_same_objects (h : jsval) (r r' : Repo) :
  r_objects r' = r_objects r → objects.read h r' = objects.read h r.
Proof. unfold objects.read. by intros ->. Qed.

Lemma entriesToc_ext (walk walk' : string → string → result (list (string * string)))
    (pre : string) (es : list (string * (kind * string))) :
  (∀ h p, walk h p = walk' h p) →
  objects.entriesToc walk pre es = objects.entriesToc walk' pre es.
Proof.
  intros Hwalk. induction es as [| e es IH]; [reflexivity |].
  cbn [objects.entriesToc]. by rewrite Hwalk, IH.
Qed.

Lemma treeToc_same_objects (fuel : nat) (r r' : Repo) (h pre : string) :
  r_objects r' = r_objects r → objects.treeToc fuel r' h pre = objects.treeToc fuel r h pre.
Proof.
  intros Hobjects. revert h pre. induction fuel as [| fuel IH]; intros h pre; [reflexivity |].
  cbn [objects.treeToc]. rewrite (read_same_objects _ _ _ Hobjects).
  destruct (objects.read (Some h) r) as [[] |]; cbn; try reflexivity.
  by apply entriesToc_ext.
Qed.

Lemma commitToc_same_objects (h : jsval) (r r' : Repo) :
  r_objects r' = r_objects r → objects.commitToc h r' = objects.commitToc h r.
Proof.
  intros Hobjects. unfold objects.commitToc.
  rewrite (read_same_objects _ _ _ Hobjects), Hobjects.
  destruct (objects.read h r) as [[] |]; try reflexivity.
  unfold mbind, result_bind. by rewrite (treeToc_same_objects _ _ _ _ _ Hobjects).
Qed.

Lemma tocToIndex_has_no_conflict (toc : gmap string string) (r : Repo) :
  index.conflictedPaths (index.write (index.tocToIndex toc) r) = [].
Proof.
  unfold index.conflictedPaths, index.write, index.tocToIndex, with_index. cbn [r_index].
  assert (filter (λ e, e_stage e ≠ 0)
            ((λ ph : string * string, Entry ph.1 0 ph.2) <$> map_to_list toc) = []) as ->;
    [| reflexivity].
  induction (map_to_list toc) as [| ph l IH]; [reflexivity |].
  rewrite fmap_cons, filter_cons_False by (cbn; auto). exact IH.
Qed.

(** [checkout] of a name that resolves to no stored object fails with
    the error that names it and changes nothing. *)
Theorem checkout_of_an_unknown_ref (ref : string) (s : State) (r : Repo) :
  repo s = Some r →
  core_bare (r_config r) = false →
  objects.exists_ (refs.hash (Some ref) r) r = false →
  tig.checkout ref s = (s, Throw (Error (ref +:+ " doesn't match any file known to tig."))).
Proof.
  intros Hr Hbare Hunknown. destruct s as [? w]; cbn in Hr; subst.
  unfold tig.checkout. run. rewrite Hbare. run. rewrite Hunknown. reflexivity.
Qed.

(** [checkout] of the hash of a blob or of a tree, or of a ref that holds
    one, fails with the not-a-commit error and changes nothing. *)
Theorem checkout_of_a_non_commit (ref : string) (s : State) (r : Repo) (o : object) :
  repo s = Some r →
  core_bare (r_config r) = false →
  objects.read (refs.hash (Some ref) r) r = Ok o →
  objects.type o ≠ kcommit →
  tig.checkout ref s = (s, Throw (Error ("Reference is not a commit " +:+ ref))).
Proof.
  intros Hr Hbare Hread Hkind. destruct s as [? w]; cbn in Hr; subst.
  assert (objects.exists_ (refs.hash (Some ref) r) r = true) as Hknown.
  { unfold objects.read in Hread. unfold objects.exists_.
    destruct (_ ≫= _); [by apply bool_decide_eq_true_2 | done]. }
  unfold tig.checkout. run. rewrite Hbare. run. rewrite Hknown. cbn [negb]. run.
  rewrite Hread. run. rewrite bool_decide_eq_false_2 by done. reflexivity.
Qed.

(** [checkout] of the branch [HEAD] is on, or of the very content of
    [HEAD], returns the already-on message and changes nothing, whatever
    the state of the index and of the working copy. *)
Theorem checkout_of_the_current_ref_changes_nothing (ref : string) (s : State) (r : Repo)
    (o : object) :
  repo s = Some r →
  core_bare (r_config r) = false →
  objects.read (refs.hash (Some ref) r) r = Ok o →
  objects.type o = kcommit →
  refs.headBranchName r = Some ref ∨ r_files r !! "HEAD" = Some ref →
  tig.checkout ref s = (s, Ok ("You are already on " +:+ ref +:+ " ◕_◕")).
Proof.
  intros Hr Hbare Hread Hkind Hon. destruct s as [? w]; cbn in Hr; subst.
  assert (objects.exists_ (refs.hash (Some ref) r) r = true) as Hknown.
  { unfold objects.read in Hread. unfold objects.exists_.
    destruct (_ ≫= _); [by apply bool_decide_eq_true_2 | done]. }
  unfold tig.checkout. run. rewrite Hbare. run. rewrite Hknown. cbn [negb]. run.
  rewrite Hread. run. rewrite Hkind, bool_decide_eq_true_2 by done. cbn [negb]. run.
  unfold js_eq. destruct Hon as [-> | ->].
  - by rewrite bool_decide_eq_true_2.
  - rewrite (bool_decide_eq_true_2 (Some ref = Some ref)) by done.
    by rewrite orb_true_r.
Qed.

(** A [checkout] that switches leaves the object store, the config and
    every ref but [HEAD] as they are.  [HEAD] becomes the symbolic ref
    [ref: refs/heads/<ref>], or [ref] itself where [ref] is the hash of a
    stored object; the index becomes the stage-0 entries of the table of
    contents of the target commit, so that no conflict is left in it. *)
Theorem checkout_switches (ref : string) (s s' : State) (out : string) (r : Repo) :
  repo s = Some r →
  refs.headBranchName r ≠ Some ref →
  r_files r !! "HEAD" ≠ Some ref →
  tig.checkout ref s = (s', Ok out) →
  ∃ r' toc,
    repo s' = Some r'
    ∧ objects.commitToc (refs.hash (Some ref) r) r = Ok toc
    ∧ r_index r' = index.tocToIndex toc
    ∧ index.conflictedPaths r' = []
    ∧ r_files r' = <["HEAD" := if objects.exists_ (Some ref) r then ref
                               else "ref: refs/heads/" +:+ ref]> (r_files r)
    ∧ r_objects r' = r_objects r
    ∧ r_config r' = r_config r
    ∧ out = (if objects.exists_ (Some ref) r
             then "Note: Checking out " +:+ ref +:+ " " +:+ nl
                  +:+ " You are in detached HEAD state."
             else "Switched to branch " +:+ ref).
Proof.
  intros Hr Hbranch Hhead Hok. destruct s as [? w]; cbn in Hr; subst.
  unfold tig.checkout in Hok. run_in Hok.
  destruct (core_bare (r_config r)); run_in Hok; [discriminate |].
  destruct (objects.exists_ (refs.hash (Some ref) r) r); cbn [negb] in Hok; run_in Hok;
    [| discriminate].
  destruct (objects.read (refs.hash (Some ref) r) r) as [o |]; run_in Hok; [| discriminate].
  destruct (bool_decide (objects.type o = kcommit)); cbn [negb] in Hok; run_in Hok;
    [| discriminate].
  unfold js_eq in Hok. rewrite !bool_decide_eq_false_2 in Hok by congruence.
  cbn [orb] in Hok. run_in Hok.
  destruct (diff.changedFilesCommitWouldOverwrite _ r w) as [paths |]; run_in Hok;
    [| discriminate].
  destruct (bool_decide (0 < length paths)); run_in Hok; [discriminate |].
  destruct (diff.diff _ _ r w) as [changes |]; run_in Hok; [| discriminate].
  pose proof (workingCopy_write_keeps_repo changes (mkState (Some r) w)) as Hrepo.
  destruct (workingCopy.write changes (mkState (Some r) w)) as [[r2 w2] [[] |]];
    cbn [fst repo] in Hrepo; subst; run_in Hok; [| discriminate].
  rewrite (commitToc_same_objects _ r) in Hok by reflexivity.
  destruct (objects.commitToc (refs.hash (Some ref) r) r) as [toc |]; run_in Hok;
    [| discriminate].
  injection Hok as <- <-.
  assert (js_string (refs.hash (Some ref) r)
          = if objects.exists_ (Some ref) r then ref else js_string (r_files r !! refs.terminalRef ref r))
    as Hjs by (unfold refs.hash; cbn; by destruct (objects.exists_ (Some ref) r)).
  eexists _, toc. split; [reflexivity |]. split; [reflexivity |].
  split; [reflexivity |]. split; [apply tocToIndex_has_no_conflict |].
  change (objects.exists_ (Some ref) (mkRepo ?a ?b ?c ?d)) with (objects.exists_ (Some ref) r).
  destruct (objects.exists_ (Some ref) r); rewrite ?Hjs; repeat split.
Qed.

(** *** [diff] *)

Lemma nameStatus_of_equal_tocs (a : gmap string string) :
  diff.nameStatus (diff.tocDiff a a) = ∅.
Proof.
  apply map_eq. intros p. unfold diff.nameStatus, diff.tocDiff.
  rewrite lookup_omap, lookup_merge, lookup_empty.
  destruct (a !! p) as [h |]; cbn; [| reflexivity].
  by rewrite bool_decide_eq_true_2.
Qed.

Lemma keys_empty_iff {A : Type} (m : gmap string A) : keys m = [] ↔ m = ∅.
Proof.
  unfold keys. rewrite <- map_to_list_empty_iff.
  destruct (map_to_list m); naive_solver.
Qed.

(** [diff] never writes, and never lists a change: the only text it ever
    returns is the empty listing, a single newline. *)
Theorem diff_never_lists_a_change (ref1 ref2 : jsval) (s : State) :
  (tig.diff ref1 ref2 s).1 = s
  ∧ ∀ out, (tig.diff ref1 ref2 s).2 = Ok out → out = nl.
Proof.
  destruct s as [[r |] w]; unfold tig.diff; run; [| done].
  destruct (core_bare (r_config r)); run; [done |].
  destruct (js_eq ref1 undefined); run.
  all: try (destruct (js_eq (refs.hash ref1 r) undefined); run; [done |]).
  all: destruct (js_eq ref2 undefined); run.
  all: try (destruct (js_eq (refs.hash ref2 r) undefined); run; [done |]).
  all: destruct (diff.diff _ _ r w) as [changes | e]; run; [| done].
  all: destruct (keys (diff.nameStatus changes)); cbn [mapM]; run; [| done].
  all: split; [done |]; by intros out [= <-].
Qed.

(** With both refs supplied, where the two sides differ in some path
    [diff] fails with a type error, where it calls the mapping of
    statuses as a function. *)
Theorem diff_of_different_sides_is_a_type_error (ref1 ref2 : string) (s : State) (r : Repo)
    (changes : gmap string diff.change) :
  repo s = Some r →
  core_bare (r_config r) = false →
  diff.diff (refs.hash (Some ref1) r) (refs.hash (Some ref2) r) r (workingCopy s)
  = Ok changes →
  diff.nameStatus changes ≠ ∅ →
  tig.diff (Some ref1) (Some ref2) s
  = (s, Throw (TypeError "nameToStatus is not a function")).
Proof.
  intros Hr Hbare Hdiff Hsome.
  destruct s as [? w]; cbn [repo workingCopy] in Hr, Hdiff; subst.
  unfold tig.diff. run. rewrite Hbare. run.
  change (js_eq (Some ref1) undefined) with false.
  change (js_eq (Some ref2) undefined) with false. run.
  rewrite Hdiff. run.
  destruct (keys (diff.nameStatus changes)) eqn:Hkeys;
    [by apply keys_empty_iff in Hkeys |].
  reflexivity.
Qed.

(** [diff] of a ref with itself, for a ref that resolves to a commit with
    a readable tree, returns the empty listing. *)
Theorem diff_of_a_commit_with_itself (ref : string) (s : State) (r : Repo)
    (toc : gmap string string) :
  repo s = Some r →
  core_bare (r_config r) = false →
  objects.commitToc (refs.hash (Some ref) r) r = Ok toc →
  tig.diff (Some ref) (Some ref) s = (s, Ok nl).
Proof.
  intros Hr Hbare Htoc. destruct s as [? w]; cbn in Hr; subst.
  assert (diff.diff (refs.hash (Some ref) r) (refs.hash (Some ref) r) r w
          = Ok (diff.tocDiff toc toc)) as Hdiff.
  { unfold diff.diff. destruct (refs.hash (Some ref) r) as [h |].
    - by rewrite Htoc.
    - unfold objects.commitToc, objects.read in Htoc. discriminate. }
  unfold tig.diff. run. rewrite Hbare. run.
  change (js_eq (Some ref) undefined) with false. run.
  rewrite Hdiff. run. rewrite nameStatus_of_equal_tocs. reflexivity.
Qed.

(** [diff] with a ref left out never compares the live state: in a
    non-bare repository it fails with the unknown-revision error for
    "undefined", and this for the first ref left out and for the second. *)
Theorem diff_with_a_ref_left_out_fails (ref1 : string) (ref2 : jsval) (s : State) (r : Repo) :
  repo s = Some r →
  core_bare (r_config r) = false →
  tig.diff undefined ref2 s
  = (s, Throw (Error "Ambiguous argument undefined: unknown revision."))
  ∧ tig.diff (Some ref1) undefined s
    = (s, Throw (Error "Ambiguous argument undefined: unknown revision.")).
Proof.
  intros Hr Hbare. destruct s as [? w]; cbn in Hr; subst.
  split; unfold tig.diff; run; rewrite Hbare; reflexivity.
Qed.

(** *** [add] *)

Lemma update_index_add (p : path) (content : string) (r : Repo) (w : gmap string string) :
  w !! p = Some content →
  tig.update_index p (tig.UpdateIndexOpts true false) (mkState (Some r) w)
  = (mkState (Some (staged p content r)) w, Ok tt).
Proof.
  intros Hp. unfold tig.update_index. cbn [tig.opts_remove tig.opts_add]. run.
  rewrite Hp. run. reflexivity.
Qed.

Lemma staged_all_cons (w : gmap string string) (p : path) (ps : list path) (r : Repo) :
  staged_all w (p :: ps) r
  = staged_all w ps (match w !! p with Some content => staged p content r | None => r end).
Proof. reflexivity. Qed.

Lemma mapM_update_index_add (ps : list path) (r : Repo) (w : gmap string string) :
  Forall (λ p, is_Some (w !! p)) ps →
  ∃ ys, mapM (λ p, tig.update_index p (tig.UpdateIndexOpts true false)) ps (mkState (Some r) w)
        = (mkState (Some (staged_all w ps r)) w, Ok ys).
Proof.
  intros Hall. revert r. induction Hall as [|p ps [content Hp] _ IH]; intros r.
  - exists []. reflexivity.
  - destruct (IH (staged p content r)) as [ys Hys]. exists (tt :: ys).
    cbn [mapM]. unfold mbind at 1, M_bind. rewrite (update_index_add _ _ _ _ Hp).
    unfold mbind at 1, M_bind. rewrite Hys.
    rewrite staged_all_cons, Hp. reflexivity.
Qed.

Lemma staged_files (p : path) (content : string) (r : Repo) :
  r_files (staged p content r) = r_files r ∧ r_config (staged p content r) = r_config r.
Proof.
  unfold staged, objects.write. cbn. destruct (r_objects r !! digest (Blob content)); done.
Qed.

Lemma staged_objects (p : path) (content : string) (r : Repo) (h : string) (o : object) :
  r_objects r !! h = Some o → r_objects (staged p content r) !! h = Some o.
Proof.
  intros Hh. unfold staged, objects.write. cbn.
  destruct (r_objects r !! digest (Blob content)) eqn:Hd; cbn; [done|].
  rewrite lookup_insert_ne; [done|]. intros <-. congruence.
Qed.

Lemma staged_stores (p : path) (content : string) (r : Repo) :
  is_Some (r_objects (staged p content r) !! digest (Blob content)).
Proof.
  unfold staged, objects.write. cbn.
  destruct (r_objects r !! digest (Blob content)) eqn:Hd; cbn; [by rewrite Hd|].
  rewrite lookup_insert_eq. done.
Qed.

Lemma staged_entries (p q : path) (content : string) (r : Repo) :
  filter (λ e, e_path e = q) (r_index (staged p content r))
  = if bool_decide (q = p) then [Entry p 0 (digest (Blob content))]
    else filter (λ e, e_path e = q) (r_index r).
Proof.
  unfold staged, objects.write. cbn [fst with_index r_index].
  assert (r_index (match r_objects r !! digest (Blob content) with
                   | Some _ => r
                   | None => with_objects (insert (digest (Blob content)) (Blob content)) r
                   end) = r_index r) as ->
    by (destruct (r_objects r !! digest (Blob content)); done).
  rewrite filter_app. case_bool_decide as Hq.
  - subst q. rewrite filter_cons_True by done. rewrite filter_nil.
    assert (filter (λ e, e_path e = p) (filter (λ e, e_path e ≠ p) (r_index r)) = []) as ->; [|done].
    induction (r_index r) as [|e es IH]; [done|].
    destruct (decide (e_path e = p)) as [He|He].
    + by rewrite (filter_cons_False _ e es) by tauto.
    + rewrite (filter_cons_True _ e es) by done. by rewrite filter_cons_False by done.
  - rewrite (filter_cons_False _ (Entry p 0 _)) by (cbn; congruence).
    rewrite filter_nil, app_nil_r.
    induction (r_index r) as [|e es IH]; [done|].
    destruct (decide (e_path e = p)) as [He|He].
    + rewrite (filter_cons_False _ e es) by tauto.
      rewrite (filter_cons_False _ e es) by congruence. done.
    + rewrite (filter_cons_True _ e es) by done.
      destruct (decide (e_path e = q)).
      * rewrite !filter_cons_True by done. by rewrite IH.
      * rewrite !filter_cons_False by done. done.
Qed.

Lemma staged_all_files (w : gmap string string) (ps : list path) (r : Repo) :
  r_files (staged_all w ps r) = r_files r ∧ r_config (staged_all w ps r) = r_config r.
Proof.
  revert r. induction ps as [|p ps IH]; intros r; [done|].
  rewrite staged_all_cons.
  destruct (w !! p) as [content|]; [|apply IH].
  destruct (IH (staged p content r)) as [-> ->]. apply staged_files.
Qed.

Lemma staged_all_objects (w : gmap string string) (ps : list path) (r : Repo)
    (h : string) (o : object) :
  r_objects r !! h = Some o → r_objects (staged_all w ps r) !! h = Some o.
Proof.
  revert r. induction ps as [|p ps IH]; intros r Hh; [done|].
  rewrite staged_all_cons.
  destruct (w !! p) as [content|]; [|by apply IH].
  apply IH. by apply staged_objects.
Qed.

Lemma staged_all_other (w : gmap string string) (ps : list path) (r : Repo) (q : path) :
  q ∉ ps →
  filter (λ e, e_path e = q) (r_index (staged_all w ps r)) = filter (λ e, e_path e = q) (r_index r).
Proof.
  revert r. induction ps as [|p ps IH]; intros r Hq; [done|].
  apply not_elem_of_cons in Hq as [Hqp Hq].
  rewrite staged_all_cons.
  destruct (w !! p) as [content|]; [|by apply IH].
  rewrite IH by done. rewrite staged_entries. by rewrite bool_decide_eq_false_2.
Qed.

Lemma staged_all_entry (w : gmap string string) (ps : list path) (r : Repo)
    (q : path) (content : string) :
  q ∈ ps → w !! q = Some content →
  filter (λ e, e_path e = q) (r_index (staged_all w ps r)) = [Entry q 0 (digest (Blob content))]
  ∧ is_Some (r_objects (staged_all w ps r) !! digest (Blob content)).
Proof.
  revert r. induction ps as [|p ps IH]; intros r Hq Hw; [by apply elem_of_nil in Hq|].
  rewrite staged_all_cons.
  destruct (decide (q ∈ ps)) as [Hin|Hin].
  - destruct (w !! p) as [c|]; by apply IH.
  - apply elem_of_cons in Hq as [->|Hq]; [|done]. rewrite Hw. split.
    + rewrite staged_all_other by done. rewrite staged_entries.
      by rewrite bool_decide_eq_true_2.
    + destruct (staged_stores p content r) as [o Ho].
      exists o. by apply staged_all_objects.
Qed.

Lemma elem_of_keys {A : Type} (m : gmap string A) (k : string) : k ∈ keys m ↔ is_Some (m !! k).
Proof.
  unfold keys. rewrite list_elem_of_fmap. split.
  - intros [[k' a] [-> Hin]]. apply elem_of_map_to_list in Hin. by exists a.
  - intros [a Ha]. exists (k, a). split; [done|]. by apply elem_of_map_to_list.
Qed.

Lemma toc_lookup (r : Repo) (q : path) :
  index.toc r !! q = e_hash <$> last (filter (λ e, e_path e = q) (r_index r)).
Proof.
  unfold index.toc. induction (r_index r) as [|e es IH] using rev_ind; [done|].
  rewrite foldl_snoc, filter_app. destruct (decide (e_path e = q)) as [<-|He].
  - rewrite filter_cons_True by done. rewrite filter_nil, last_snoc.
    by rewrite lookup_insert_eq.
  - rewrite filter_cons_False by done. rewrite filter_nil, app_nil_r.
    by rewrite lookup_insert_ne.
Qed.

(** [add] of a path that matches no file of the working copy throws the
    error that names the path, and stages nothing. *)
Theorem add_reports_no_match (p : path) (s : State) (r : Repo) :
  repo s = Some r →
  core_bare (r_config r) = false →
  (∀ q, matches p q → workingCopy s !! q = None) →
  tig.add p s = (s, Throw (Error (p +:+ " did not match any files."))).
Proof.
  destruct s as [o w]. cbn [repo workingCopy]. intros -> Hbare Hnone.
  unfold tig.add. run. rewrite Hbare. run. unfold files.lsRecursive. run.
  assert (filter (λ q, q = p ∨ starts_with (p +:+ "/") q = true) (keys w) = []) as ->.
  { apply elem_of_nil_inv. intros q [Hm Hq]%list_elem_of_filter.
    apply elem_of_keys in Hq as [c Hc]. specialize (Hnone q Hm). congruence. }
  reflexivity.
Qed.

Lemma elem_of_lsRecursive (p q : path) (w : gmap string string) :
  q ∈ filter (λ q, q = p ∨ starts_with (p +:+ "/") q = true) (keys w)
  ↔ matches p q ∧ is_Some (w !! q).
Proof. rewrite list_elem_of_filter, elem_of_keys. done. Qed.

Lemma add_runs (p q0 : path) (r : Repo) (w : gmap string string) :
  core_bare (r_config r) = false →
  matches p q0 → is_Some (w !! q0) →
  tig.add p (mkState (Some r) w)
  = (mkState (Some (staged_all w (filter (λ q, q = p ∨ starts_with (p +:+ "/") q = true)
                                         (keys w)) r)) w, Ok tt).
Proof.
  intros Hbare Hm0 Hq0.
  set (ps := filter (λ q, q = p ∨ starts_with (p +:+ "/") q = true) (keys w)).
  destruct (mapM_update_index_add ps r w) as [ys Hys].
  { apply Forall_forall. intros q Hq. by apply elem_of_lsRecursive in Hq as [_ ?]. }
  unfold tig.add. run. rewrite Hbare. run. unfold files.lsRecursive. run. fold ps.
  rewrite bool_decide_eq_false_2.
  - rewrite Hys. reflexivity.
  - intros Hlen. apply length_zero_iff_nil in Hlen.
    assert (q0 ∈ ps) as Hin by (by apply elem_of_lsRecursive). rewrite Hlen in Hin.
    by apply elem_of_nil in Hin.
Qed.

(** [add] of a path that matches a file of the working copy succeeds and
    leaves the working copy, the config and the files of the repository as
    they were.  Each file of the working copy that the path matches then
    has one entry in the index, at stage 0 with the digest of its content,
    and the blob of its content is stored; the entries of every other path
    are the ones it had, those of a matching path that is not in the
    working copy among them. *)
Theorem add_stages_the_matching_files (p : path) (s : State) (r : Repo) (q0 : path) :
  repo s = Some r →
  core_bare (r_config r) = false →
  matches p q0 → is_Some (workingCopy s !! q0) →
  ∃ r', tig.add p s = (mkState (Some r') (workingCopy s), Ok tt)
    ∧ r_files r' = r_files r ∧ r_config r' = r_config r
    ∧ (∀ h o, r_objects r !! h = Some o → r_objects r' !! h = Some o)
    ∧ (∀ q content, matches p q → workingCopy s !! q = Some content →
         filter (λ e, e_path e = q) (r_index r') = [Entry q 0 (digest (Blob content))]
         ∧ is_Some (r_objects r' !! digest (Blob content)))
    ∧ (∀ q, ¬ matches p q ∨ workingCopy s !! q = None →
         filter (λ e, e_path e = q) (r_index r') = filter (λ e, e_path e = q) (r_index r)).
Proof.
  destruct s as [o w]. cbn [repo workingCopy]. intros -> Hbare Hm0 Hq0.
  eexists. split; [by apply (add_runs p q0)|]. split; [|split; [|split; [|split]]].
  - apply staged_all_files.
  - apply staged_all_files.
  - intros h ob. apply staged_all_objects.
  - intros q content Hm Hw. apply staged_all_entry; [|done].
    apply elem_of_lsRecursive. by rewrite Hw.
  - intros q Hq. apply staged_all_other. rewrite elem_of_lsRecursive. intros [Hm [c Hc]].
    destruct Hq as [Hq|Hq]; [done|congruence].
Qed.

(** Once [add] of a path has succeeded, no file of the working copy that
    the path matches is added or modified against the index, and none is
    in conflict. *)
Theorem add_leaves_the_matching_files_unchanged (p : path) (s s' : State) (r r' : Repo)
    (q : path) :
  repo s = Some r →
  core_bare (r_config r) = false →
  tig.add p s = (s', Ok tt) →
  repo s' = Some r' →
  matches p q → is_Some (workingCopy s !! q) →
  ¬ q ∈ diff.addedOrModifiedFiles r' (workingCopy s') ∧ ¬ q ∈ index.conflictedPaths r'.
Proof.
  destruct s as [o w]. cbn [repo workingCopy]. intros -> Hbare Hadd Hr' Hm [content Hw].
  rewrite (add_runs p q r w Hbare Hm) in Hadd by (by rewrite Hw).
  injection Hadd as <-. cbn [repo workingCopy] in *. injection Hr' as <-.
  destruct (staged_all_entry w (filter (λ q, q = p ∨ starts_with (p +:+ "/") q = true) (keys w))
              r q content) as [Hq _]; [apply elem_of_lsRecursive; by rewrite Hw|done|].
  split.
  - unfold diff.addedOrModifiedFiles. rewrite elem_of_keys. intros [x Hx].
    apply map_lookup_filter_Some in Hx as [Hx _]. revert Hx.
    unfold diff.nameStatus, diff.tocDiff. rewrite lookup_omap, lookup_merge.
    rewrite toc_lookup, Hq. unfold index.workingCopyToc. rewrite lookup_fmap, Hw. cbn.
    by rewrite bool_decide_eq_true_2.
  - unfold index.conflictedPaths. rewrite elem_of_remove_dups, list_elem_of_fmap.
    intros [e [-> [Hstage He]%list_elem_of_filter]].
    assert (e ∈ filter (λ e', e_path e' = e_path e) (r_index
              (staged_all w (filter (λ q, q = p ∨ starts_with (p +:+ "/") q = true) (keys w)) r)))
      as Hin.
    { by apply list_elem_of_filter. }
    rewrite Hq in Hin. apply list_elem_of_singleton in Hin.
    apply Hstage. rewrite Hin. reflexivity.
Qed.

(** *** [remote] *)

Lemma js_neq_same (a : jsval) : js_neq a a = false.
Proof. unfold js_neq, js_eq. by rewrite bool_decide_eq_true_2. Qed.

(** [remote] with any command but [add] throws the error that it is not
    supported, whatever the name and the url, and changes nothing. *)
Theorem remote_supports_add_only (command : jsval) (name url : string) (d : Disk) (r : Repo) :
  repo (d_state d) = Some r →
  command ≠ Some "add" →
  tig.remote command name url d = (d, Throw (Error "This is not supported.")).
Proof.
  destruct d as [[o w] m]. cbn [d_state repo]. intros -> Hc.
  unfold tig.remote. runD.
  destruct (js_neq command (Some "add")) eqn:E; [reflexivity|].
  unfold js_neq, js_eq in E. apply negb_false_iff, bool_decide_eq_true in E. done.
Qed.

(** [remote add] of a name that has a record throws the error that names
    the remote and keeps the record as it was. *)
Theorem remote_add_of_a_known_name (name url : string) (d : Disk) (r : Repo)
    (remotes : gmap string (gmap string string)) :
  repo (d_state d) = Some r →
  d_remote d = Some remotes →
  is_Some (remotes !! name) →
  tig.remote (Some "add") name url d
  = (d, Throw (Error ("Remote: " +:+ name +:+ " already exists"))).
Proof.
  destruct d as [[o w] m]. cbn [d_state d_remote repo]. intros -> -> Hknown.
  unfold tig.remote. runD. rewrite js_neq_same. runD.
  rewrite bool_decide_eq_true_2 by auto. reflexivity.
Qed.

(** [remote add] of a new name records the url under the name, keeps the
    records of the other remotes and the rest of the repository, and
    returns a newline. *)
Theorem remote_add_records_the_url (name url : string) (d : Disk) (r : Repo)
    (remotes : gmap string (gmap string string)) :
  repo (d_state d) = Some r →
  d_remote d = Some remotes →
  remotes !! name = None →
  name ∉ inherited →
  tig.remote (Some "add") name url d
  = (mkDisk (d_state d) (Some (<[name := {["url" := url]}]> remotes)), Ok nl).
Proof.
  destruct d as [[o w] m]. cbn [d_state d_remote repo]. intros -> -> Hnew Hname.
  unfold tig.remote. runD. rewrite js_neq_same. runD.
  rewrite bool_decide_eq_false_2.
  - runD. unfold util.setIn. cbn [from_option id]. rewrite Hnew. reflexivity.
  - intros [[x Hx]|Hin]; [congruence | done].
Qed.

(** Once [remote add] has recorded a name, a second [remote add] of the
    name fails, whatever its url, and the first url stays recorded. *)
Theorem remote_add_twice_fails (name url url' : string) (d : Disk) (r : Repo)
    (remotes : gmap string (gmap string string)) :
  repo (d_state d) = Some r →
  d_remote d = Some remotes →
  remotes !! name = None →
  name ∉ inherited →
  tig.remote (Some "add") name url' (tig.remote (Some "add") name url d).1
  = (mkDisk (d_state d) (Some (<[name := {["url" := url]}]> remotes)),
     Throw (Error ("Remote: " +:+ name +:+ " already exists"))).
Proof.
  destruct d as [[o w] m]. cbn [d_state d_remote repo]. intros -> -> Hnew Hname.
  unfold tig.remote. runD. rewrite js_neq_same. runD.
  rewrite bool_decide_eq_false_2 by (intros [[x Hx]|Hin]; [congruence | done]).
  runD. rewrite bool_decide_eq_true_2.
  - unfold util.setIn. cbn [from_option id]. rewrite Hnew. reflexivity.
  - left. unfold util.setIn. cbn [from_option id]. rewrite lookup_insert_eq. by eexists.
Qed.

End properties.

(** ** The properties on the example repositories *)

Import example.

Example init_of_empty_directory : tig.init None empty_directory = (initialised, Ok tt).
Proof. reflexivity. Qed.

Example commit_after_init :
  (tig.commit (Some (tig.CommitOpts (Some "msg"))) (tig.init None empty_directory).1).2
  = Throw ObjectNotFound.
Proof. reflexivity. Qed.

Lemma init_in_repo_changes_nothing_witness :
  is_Some (repo initialised) ∧ tig.init None initialised = (initialised, Ok tt).
Proof.
  assert (is_Some (repo initialised)) as Hin by (vm_compute; eauto).
  split; [exact Hin | exact (init_in_repo_changes_nothing None initialised Hin)].
Defined.

(** C1 as it is stated fails: [a.txt] is matched and has changes in the
    working copy, force is requested, and [rm] fails instead of removing
    it. *)
Lemma rm_with_force_does_not_proceed :
  changesToRm "a.txt" staged_and_modified = ["a.txt"]
  ∧ tig.rm "a.txt" (Some (tig.RmOpts true false)) staged_and_modified
    = (staged_and_modified, Throw (Error "You cannot remove a file with changes")).
Proof. split; vm_compute; reflexivity. Qed.

(** Without force, [rm] of a matched file reads the undeclared
    [changestoRm] when it tests for changes. *)
Example rm_without_force :
  tig.rm "a.txt" (Some (tig.RmOpts false false)) staged_and_modified
  = (staged_and_modified, Throw (ReferenceError "changestoRm is not defined")).
Proof. vm_compute. reflexivity. Qed.

Lemma rm_force_always_fails_witness :
  tig.rm "a.txt" (Some (tig.RmOpts true false)) staged_and_modified
  = (staged_and_modified, Throw (Error "You cannot remove a file with changes")).
Proof.
  apply (rm_force_always_fails "a.txt" (tig.RmOpts true false) staged_and_modified
           staged_and_modified_repo); reflexivity.
Defined.

Lemma first_commit_fails_witness :
  refs.hash (Some "HEAD") (tree_written initialised_repo) = None
  ∧ tig.commit (Some (tig.CommitOpts (Some "msg"))) initialised
    = (mkState (Some (tree_written initialised_repo)) ∅, Throw ObjectNotFound).
Proof.
  split; [reflexivity |].
  apply (first_commit_fails (Some (tig.CommitOpts (Some "msg"))) initialised
           initialised_repo); reflexivity.
Defined.

Lemma init_HEAD_points_at_headers_witness :
  repo empty_directory = None
  ∧ ∃ r, repo (tig.init None empty_directory).1 = Some r
         ∧ (tig.init None empty_directory).2 = Ok tt
         ∧ r_files r !! "HEAD" = Some ("ref: refs/headers/master" +:+ nl)
         ∧ starts_with "ref: refs/heads/" ("ref: refs/headers/master" +:+ nl) = false
         ∧ refs.headBranchName r = None
         ∧ refs.hash (Some "HEAD") r = None.
Proof.
  split; [reflexivity |].
  apply (init_HEAD_points_at_headers None empty_directory). reflexivity.
Defined.

(** The failing input of C4: neither "nosuch" nor "missing" resolves, and
    [diff] of the two compares the index with the working copy and fails
    where it calls the mapping of statuses. *)
Example diff_of_unknown_refs :
  refs.hash (Some "nosuch") staged_and_modified_repo = None
  ∧ refs.hash (Some "missing") staged_and_modified_repo = None
  ∧ tig.diff (Some "nosuch") (Some "missing") staged_and_modified
    = (staged_and_modified, Throw (TypeError "nameToStatus is not a function")).
Proof. repeat split; vm_compute; reflexivity. Qed.

(** C5 as it is stated fails: on [master], [a.txt] is staged and modified
    and differs in the commit of [master], and [checkout] of [master]
    returns without an error. *)
Lemma checkout_of_current_branch_does_not_fail :
  diff.changedFilesCommitWouldOverwrite
    (refs.hash (Some "master") staged_and_modified_repo)
    staged_and_modified_repo (workingCopy staged_and_modified) = Ok ["a.txt"]
  ∧ tig.checkout "master" staged_and_modified
    = (staged_and_modified, Ok "You are already on master ◕_◕").
Proof. split; vm_compute; reflexivity. Qed.

Lemma checkout_refuses_to_lose_changes_witness :
  tig.checkout "feature" staged_and_modified
  = (staged_and_modified,
     Throw (Error ("Local changes would be lost: " +:+ nl +:+ " a.txt " +:+ nl))).
Proof.
  apply (checkout_refuses_to_lose_changes "feature" staged_and_modified
           staged_and_modified_repo ["a.txt"]);
    try reflexivity; vm_compute; discriminate.
Defined.

(** C6 as it is stated fails: [a.txt] is staged at a conflict stage, no
    merge is in progress, and [commit] succeeds and stores a new commit
    object. *)
Lemma commit_with_conflict_outside_merge_succeeds :
  index.conflictedPaths conflict_without_merge_repo = ["a.txt"]
  ∧ (tig.commit (Some (tig.CommitOpts (Some "x"))) conflict_without_merge).2
    = Ok ("[master " +:+ digest commit2 +:+ "] x")
  ∧ r_objects conflict_without_merge_repo !! digest commit2 = None
  ∧ (repo (tig.commit (Some (tig.CommitOpts (Some "x"))) conflict_without_merge).1
     ≫= λ r, r_objects r !! digest commit2) = Some commit2.
Proof. repeat split; vm_compute; reflexivity. Qed.

(** With a conflicted path staged in a merge, and the tree of the index
    equal to the tree of [HEAD], [commit] finds nothing to commit before it
    looks at the conflicts. *)
Example commit_with_conflict_and_nothing_to_commit :
  index.conflictedPaths delete_modify_merge_repo = ["a.txt"]
  ∧ merge.isMergeInProgress delete_modify_merge_repo = true
  ∧ (tig.commit None delete_modify_merge).2
    = Throw (Error ("# On master" +:+ nl
                    +:+ " Nothing to commit - working directory clean.")).
Proof. repeat split; vm_compute; reflexivity. Qed.

Lemma commit_refuses_unmerged_files_witness :
  tig.commit None conflicted_merge
  = (mkState (Some (tree_written conflicted_merge_repo)) (workingCopy conflicted_merge),
     Throw (Error "U a.txt - cannot commit because you have un-merged files."))
  ∧ (∀ h o, r_objects (tree_written conflicted_merge_repo) !! h = Some o →
            objects.type o = kcommit → r_objects conflicted_merge_repo !! h = Some o).
Proof.
  apply (commit_refuses_unmerged_files None conflicted_merge conflicted_merge_repo);
    try reflexivity.
  - vm_compute. discriminate.
  - exists (digest commit1), commit1. repeat split; vm_compute; [reflexivity.. | discriminate].
Defined.

Lemma commit_consumes_merge_state_witness :
  merge.isMergeInProgress resolved_merge_repo = true
  ∧ ∃ r', repo (tig.commit None resolved_merge).1 = Some r'
          ∧ r_files r' !! "MERGE_MSG" = None
          ∧ r_files r' !! "MERGE_HEAD" = None
          ∧ merge.isMergeInProgress r' = false.
Proof.
  split; [reflexivity |].
  apply (commit_consumes_merge_state None resolved_merge
           (tig.commit None resolved_merge).1 "Merge made by three-way strategy."
           resolved_merge_repo); [reflexivity | reflexivity |].
  vm_compute. reflexivity.
Defined.

Lemma commit_message_follows_merge_state_witness :
  (∃ r', repo (tig.commit (Some (tig.CommitOpts (Some "mine"))) resolved_merge).1 = Some r'
         ∧ r_objects r'
             !! digest (commit_object resolved_merge_repo (Some "Merge feature into master"))
           = Some (commit_object resolved_merge_repo (Some "Merge feature into master")))
  ∧ (merge.isMergeInProgress resolved_merge_repo = true →
     ∀ opts', tig.commit opts' resolved_merge
              = ((tig.commit (Some (tig.CommitOpts (Some "mine"))) resolved_merge).1,
                 Ok "Merge made by three-way strategy.")).
Proof.
  apply (commit_message_follows_merge_state (Some (tig.CommitOpts (Some "mine")))
           resolved_merge
           (tig.commit (Some (tig.CommitOpts (Some "mine"))) resolved_merge).1
           "Merge made by three-way strategy." resolved_merge_repo).
  - reflexivity.
  - vm_compute. reflexivity.
  - vm_compute. exact I.
Defined.

Lemma branch_duplicate_throws_ReferenceError_witness :
  refs.exists_ (refs.toLocalRef "feature") staged_and_modified_repo = true
  ∧ tig.branch "function () { ... }" (Some "feature") staged_and_modified
    = (staged_and_modified, Throw (ReferenceError "Errror is not defined")).
Proof.
  split; [reflexivity |].
  apply (branch_duplicate_throws_ReferenceError "function () { ... }" "feature"
           staged_and_modified staged_and_modified_repo (digest commit1)); reflexivity.
Defined.

(** *** Instances of the further properties *)

Lemma commands_need_a_repository_witness :
  tig.add "a.txt" empty_directory = (empty_directory, Throw NotARepository)
  ∧ tig.branch "function () { ... }" None empty_directory
    = (empty_directory, Throw NotARepository)
  ∧ tig.remote (Some "add") "origin" "host:repo" (mkDisk empty_directory None)
    = (mkDisk empty_directory None, Throw NotARepository).
Proof.
  destruct (commands_need_a_repository empty_directory "a.txt" "master" "origin"
              "function () { ... }" "host:repo" None None None None (Some "add") None None)
    as (Hadd & _ & _ & Hbranch & _ & _ & Hremote); [reflexivity |].
  exact (conj Hadd (conj Hbranch Hremote)).
Defined.

Lemma working_copy_commands_refuse_bare_witness :
  tig.add "a.txt" bare = (bare, Throw BareRepositoryViolation)
  ∧ tig.checkout "master" bare = (bare, Throw BareRepositoryViolation).
Proof.
  destruct (working_copy_commands_refuse_bare bare bare_repo "a.txt" "master" None None
              None None) as (Hadd & _ & _ & Hcheckout & _); [reflexivity | reflexivity |].
  exact (conj Hadd Hcheckout).
Defined.

Lemma rm_reports_no_match_witness :
  tig.rm "b.txt" (Some (tig.RmOpts false false)) staged_and_modified
  = (staged_and_modified, Throw (Error "b.txt did not match any files.")).
Proof.
  apply (rm_reports_no_match "b.txt" (tig.RmOpts false false) staged_and_modified
           staged_and_modified_repo); reflexivity.
Defined.

Lemma rm_of_a_directory_needs_r_witness :
  tig.rm "dir" (Some (tig.RmOpts false false)) nested
  = (nested, Throw (Error ("You need to add run this operation recursively. Please pass "
                           +:+ dq +:+ "-r" +:+ dq +:+ " as an option. "))).
Proof.
  apply (rm_of_a_directory_needs_r "dir" (tig.RmOpts false false) nested nested_repo);
    try reflexivity.
  - vm_compute. discriminate.
  - apply (bool_decide_unpack _). vm_compute. exact I.
Defined.

Lemma rm_without_force_is_a_reference_error_witness :
  tig.rm "dir" (Some (tig.RmOpts false true)) nested
  = (nested, Throw (ReferenceError "changestoRm is not defined")).
Proof.
  apply (rm_without_force_is_a_reference_error "dir" (tig.RmOpts false true) nested
           nested_repo); try reflexivity.
  - vm_compute. discriminate.
  - left. reflexivity.
Defined.

Lemma commit_keeps_index_and_objects_witness :
  ∃ r', repo (tig.commit (Some (tig.CommitOpts (Some "x"))) staged_and_modified).1 = Some r'
        ∧ workingCopy (tig.commit (Some (tig.CommitOpts (Some "x"))) staged_and_modified).1
          = workingCopy staged_and_modified
        ∧ r_index r' = r_index staged_and_modified_repo
        ∧ r_config r' = r_config staged_and_modified_repo
        ∧ (∀ h o, r_objects staged_and_modified_repo !! h = Some o
                  → r_objects r' !! h = Some o).
Proof.
  apply (commit_keeps_index_and_objects (Some (tig.CommitOpts (Some "x")))
           staged_and_modified staged_and_modified_repo). reflexivity.
Defined.

Lemma failed_commit_moves_no_ref_witness :
  ∃ r', repo (tig.commit None staged_and_modified).1 = Some r'
        ∧ r_files r' = r_files staged_and_modified_repo.
Proof.
  apply (failed_commit_moves_no_ref None staged_and_modified staged_and_modified_repo
           (TypeError "Cannot read properties of undefined (reading 'm')")).
  - reflexivity.
  - vm_compute. reflexivity.
  - discriminate.
Defined.

Lemma commit_can_fail_after_moving_HEAD_witness :
  ∃ r' m, repo (tig.commit None merge_without_message).1 = Some r'
          ∧ r_files r'
            = <[refs.terminalRef "HEAD" merge_without_message_repo
                  := digest (commit_object merge_without_message_repo m)]>
                (r_files merge_without_message_repo).
Proof.
  apply (commit_can_fail_after_moving_HEAD None merge_without_message
           merge_without_message_repo).
  - reflexivity.
  - vm_compute. reflexivity.
Defined.

Lemma commit_with_the_tree_of_HEAD_has_nothing_to_commit_witness :
  tig.commit (Some (tig.CommitOpts (Some "again"))) clean
  = (mkState (Some (tree_written clean_repo)) (workingCopy clean),
     Throw (Error ("# On master" +:+ nl +:+ " Nothing to commit - working directory clean."))).
Proof.
  apply (commit_with_the_tree_of_HEAD_has_nothing_to_commit
           (Some (tig.CommitOpts (Some "again"))) clean clean_repo (digest commit1) commit1).
  - reflexivity.
  - reflexivity.
  - vm_compute. reflexivity.
  - vm_compute. discriminate.
  - vm_compute. reflexivity.
  - vm_compute. reflexivity.
Defined.

Lemma commit_without_options_is_a_type_error_witness :
  tig.commit None staged_and_modified
  = (mkState (Some (tree_written staged_and_modified_repo)) (workingCopy staged_and_modified),
     Throw (TypeError "Cannot read properties of undefined (reading 'm')")).
Proof.
  apply (commit_without_options_is_a_type_error staged_and_modified staged_and_modified_repo).
  - reflexivity.
  - reflexivity.
  - vm_compute. reflexivity.
  - exists (digest commit1), commit1. repeat split; vm_compute; [reflexivity.. | discriminate].
Defined.

Lemma commit_moves_the_branch_witness :
  (∃ r', repo (tig.commit (Some (tig.CommitOpts (Some "x"))) staged_and_modified).1 = Some r'
         ∧ r_files r'
           = <[refs.terminalRef "HEAD" staged_and_modified_repo
                 := digest (commit_object staged_and_modified_repo (Some "x"))]>
               (r_files staged_and_modified_repo))
  ∧ "[master " +:+ digest commit2 +:+ "] x"
    = "[" +:+ js_string (if refs.isHeadDetached staged_and_modified_repo
                         then Some "detached HEAD"
                         else refs.headBranchName staged_and_modified_repo)
      +:+ " " +:+ digest (commit_object staged_and_modified_repo (Some "x"))
      +:+ "] " +:+ js_string (Some "x").
Proof.
  apply (commit_moves_the_branch (tig.CommitOpts (Some "x")) staged_and_modified
           (tig.commit (Some (tig.CommitOpts (Some "x"))) staged_and_modified).1
           ("[master " +:+ digest commit2 +:+ "] x") staged_and_modified_repo).
  - reflexivity.
  - vm_compute. reflexivity.
  - vm_compute. discriminate.
  - vm_compute. reflexivity.
Defined.

Lemma branch_needs_a_HEAD_commit_witness :
  tig.branch "function () { ... }" (Some "topic") initialised
  = (initialised, Throw (Error "function () { ... } is not a valid object name.")).
Proof.
  apply (branch_needs_a_HEAD_commit "function () { ... }" "topic" initialised
           initialised_repo); reflexivity.
Defined.

Lemma branch_creates_the_ref_witness :
  tig.branch "function () { ... }" (Some "topic") clean
  = (mkState (Some (refs.write (refs.toLocalRef "topic") (digest commit1) clean_repo))
             (workingCopy clean), Ok undefined)
  ∧ r_files (refs.write (refs.toLocalRef "topic") (digest commit1) clean_repo)
      !! refs.toLocalRef "topic" = Some (digest commit1)
  ∧ refs.headBranchName (refs.write (refs.toLocalRef "topic") (digest commit1) clean_repo)
    = refs.headBranchName clean_repo.
Proof.
  apply (branch_creates_the_ref "function () { ... }" "topic" clean clean_repo
           (digest commit1)); vm_compute; reflexivity.
Defined.

Lemma branch_twice_fails_witness :
  tig.branch "function () { ... }" (Some "topic")
    (tig.branch "function () { ... }" (Some "topic") clean).1
  = ((tig.branch "function () { ... }" (Some "topic") clean).1,
     Throw (ReferenceError "Errror is not defined")).
Proof.
  apply (branch_twice_fails "function () { ... }" "topic" clean clean_repo (digest commit1));
    vm_compute; reflexivity.
Defined.

Lemma checkout_of_an_unknown_ref_witness :
  tig.checkout "nosuch" clean
  = (clean, Throw (Error "nosuch doesn't match any file known to tig.")).
Proof.
  apply (checkout_of_an_unknown_ref "nosuch" clean clean_repo); vm_compute; reflexivity.
Defined.

Lemma checkout_of_a_non_commit_witness :
  tig.checkout (digest blob1) clean
  = (clean, Throw (Error ("Reference is not a commit " +:+ digest blob1))).
Proof.
  apply (checkout_of_a_non_commit (digest blob1) clean clean_repo blob1).
  - reflexivity.
  - reflexivity.
  - vm_compute. reflexivity.
  - discriminate.
Defined.

Lemma checkout_of_the_current_ref_changes_nothing_witness :
  tig.checkout "master" staged_and_modified
  = (staged_and_modified, Ok "You are already on master ◕_◕").
Proof.
  apply (checkout_of_the_current_ref_changes_nothing "master" staged_and_modified
           staged_and_modified_repo commit1).
  - reflexivity.
  - reflexivity.
  - vm_compute. reflexivity.
  - reflexivity.
  - left. vm_compute. reflexivity.
Defined.

Lemma checkout_switches_witness :
  ∃ r', repo (tig.checkout "feature" clean).1 = Some r'
        ∧ r_index r' = [Entry "a.txt" 0 (digest blob4)]
        ∧ r_files r' !! "HEAD" = Some "ref: refs/heads/feature"
        ∧ workingCopy (tig.checkout "feature" clean).1 = {[ "a.txt" := "four" ]}.
Proof.
  destruct (checkout_switches "feature" clean (tig.checkout "feature" clean).1
              "Switched to branch feature" clean_repo)
    as (r' & toc & Hr' & Htoc & Hindex & _ & Hfiles & _).
  - reflexivity.
  - vm_compute. discriminate.
  - vm_compute. discriminate.
  - vm_compute. reflexivity.
  - exists r'. split; [exact Hr' |]. split; [| split].
    + rewrite Hindex. vm_compute in Htoc. injection Htoc as <-. vm_compute. reflexivity.
    + rewrite Hfiles. vm_compute. reflexivity.
    + vm_compute. reflexivity.
Defined.

Lemma diff_of_different_sides_is_a_type_error_witness :
  tig.diff (Some "master") (Some "feature") clean
  = (clean, Throw (TypeError "nameToStatus is not a function")).
Proof.
  apply (diff_of_different_sides_is_a_type_error "master" "feature" clean clean_repo
           {[ "a.txt" := diff.Change diff.modified (Some (digest blob1)) (Some (digest blob4)) ]}).
  - reflexivity.
  - reflexivity.
  - vm_compute. reflexivity.
  - vm_compute. discriminate.
Defined.

Lemma diff_of_a_commit_with_itself_witness :
  tig.diff (Some "master") (Some "master") staged_and_modified
  = (staged_and_modified, Ok nl).
Proof.
  apply (diff_of_a_commit_with_itself "master" staged_and_modified staged_and_modified_repo
           {[ "a.txt" := digest blob1 ]}).
  - reflexivity.
  - reflexivity.
  - vm_compute. reflexivity.
Defined.

Lemma diff_with_a_ref_left_out_fails_witness :
  tig.diff undefined (Some "master") staged_and_modified
  = (staged_and_modified, Throw (Error "Ambiguous argument undefined: unknown revision."))
  ∧ tig.diff (Some "master") undefined staged_and_modified
    = (staged_and_modified, Throw (Error "Ambiguous argument undefined: unknown revision.")).
Proof.
  apply (diff_with_a_ref_left_out_fails "master" (Some "master") staged_and_modified
           staged_and_modified_repo); reflexivity.
Defined.

Lemma add_reports_no_match_witness :
  tig.add "a.txt" initialised
  = (initialised, Throw (Error "a.txt did not match any files.")).
Proof.
  apply (add_reports_no_match "a.txt" initialised initialised_repo).
  - reflexivity.
  - reflexivity.
  - intros q _. reflexivity.
Defined.

Lemma add_stages_the_matching_files_witness :
  ∃ r', tig.add "a.txt" staged_and_modified
        = (mkState (Some r') (workingCopy staged_and_modified), Ok tt)
        ∧ filter (λ e, e_path e = "a.txt") (r_index r')
          = [Entry "a.txt" 0 (digest (Blob "three"))]
        ∧ is_Some (r_objects r' !! digest (Blob "three")).
Proof.
  destruct (add_stages_the_matching_files "a.txt" staged_and_modified
              staged_and_modified_repo "a.txt")
    as (r' & Hrun & _ & _ & _ & Hentry & _).
  - reflexivity.
  - reflexivity.
  - left. reflexivity.
  - vm_compute. eauto.
  - exists r'. split; [exact Hrun |].
    apply Hentry; [left; reflexivity | vm_compute; reflexivity].
Defined.

Lemma add_leaves_the_matching_files_unchanged_witness :
  ¬ "a.txt" ∈ diff.addedOrModifiedFiles
                (staged "a.txt" "three" staged_and_modified_repo)
                (workingCopy staged_and_modified)
  ∧ ¬ "a.txt" ∈ index.conflictedPaths (staged "a.txt" "three" staged_and_modified_repo).
Proof.
  apply (add_leaves_the_matching_files_unchanged "a.txt" staged_and_modified
           (mkState (Some (staged "a.txt" "three" staged_and_modified_repo))
                    (workingCopy staged_and_modified))
           staged_and_modified_repo (staged "a.txt" "three" staged_and_modified_repo) "a.txt").
  - reflexivity.
  - reflexivity.
  - vm_compute. reflexivity.
  - reflexivity.
  - left. reflexivity.
  - vm_compute. eauto.
Defined.

Lemma remote_supports_add_only_witness :
  tig.remote (Some "remove") "origin" "host:repo" with_origin
  = (with_origin, Throw (Error "This is not supported.")).
Proof.
  apply (remote_supports_add_only (Some "remove") "origin" "host:repo" with_origin
           initialised_repo); [reflexivity | discriminate].
Defined.

Lemma remote_add_of_a_known_name_witness :
  tig.remote (Some "add") "origin" "other:repo" with_origin
  = (with_origin, Throw (Error "Remote: origin already exists")).
Proof.
  apply (remote_add_of_a_known_name "origin" "other:repo" with_origin initialised_repo
           {[ "origin" := {[ "url" := "host:repo" ]} ]}).
  - reflexivity.
  - reflexivity.
  - vm_compute. eauto.
Defined.

Lemma remote_add_records_the_url_witness :
  tig.remote (Some "add") "origin" "host:repo" no_remotes
  = (mkDisk (d_state no_remotes) (Some (<["origin" := {[ "url" := "host:repo" ]}]> ∅)), Ok nl).
Proof.
  apply (remote_add_records_the_url "origin" "host:repo" no_remotes initialised_repo ∅).
  - reflexivity.
  - reflexivity.
  - reflexivity.
  - apply (bool_decide_unpack _). vm_compute. exact I.
Defined.
